(** * git-spell-check: the diff parser, the word correlation and the driver

    A shallow embedding of [git-spell-check.py].  Python strings are lists
    of Unicode code points; the interpreter's built-ins used by the script
    ([str.splitlines], [str.split], [str.strip], [int], the [unicode_escape]
    codec, ...) are written out as functions.  The parts of the interpreter
    that are large tables (the Unicode character database beyond Latin-1)
    or a setting (the integer-conversion digit limit) are section
    variables.  Exceptions are values of an error monad; standard output is
    the list of the strings printed.  The programs and files the script
    turns to (git, the spell checker, the file system, the environment,
    [json]) are the fields of a record [world]; [main] is taken from the
    point where [parse_args] has returned the namespace [args]. *)

From Stdlib Require Import Strings.String Strings.Ascii DecimalString.
From Stdlib Require Import Bool NArith ZArith Lia List Sorted.
From Stdlib Require DecimalPos.
Import ListNotations.

Set Implicit Arguments.
Local Open Scope N_scope.

(** ** Python strings *)

Module Str.

(** A character is a code point, a string the list of its characters. *)
Definition char := N.
Definition str := list char.

(** A literal of the script, read as code points (ASCII literals only). *)
Definition lit (s : String.string) : str :=
  map Ascii.N_of_ascii (String.list_ascii_of_string s).

Fixpoint str_eqb (a b : str) : bool :=
  match a, b with
  | [], [] => true
  | x :: a', y :: b' => N.eqb x y && str_eqb a' b'
  | _, _ => false
  end.

(** [s.startswith(p)] *)
Fixpoint startswith (p s : str) : bool :=
  match p, s with
  | [], _ => true
  | x :: p', y :: s' => N.eqb x y && startswith p' s'
  | _ :: _, [] => false
  end.

(** [s[n:]] *)
Definition slice_from (n : nat) (s : str) : str := skipn n s.

(** Truthiness of a string: non-empty. *)
Definition truthy (s : str) : bool :=
  match s with [] => false | _ :: _ => true end.

(** [str.isspace] on one character: the code points CPython's
    [_PyUnicode_IsWhitespace] accepts. *)
Definition isspace (c : char) : bool :=
  ((9 <=? c) && (c <=? 13)) || ((28 <=? c) && (c <=? 32))
  || (c =? 133) || (c =? 160) || (c =? 5760)
  || ((8192 <=? c) && (c <=? 8202))
  || (c =? 8232) || (c =? 8233) || (c =? 8239) || (c =? 8287)
  || (c =? 12288).

(** The line boundaries of [str.splitlines]
    (CPython's [_PyUnicode_IsLinebreak]). *)
Definition is_linebreak (c : char) : bool :=
  ((10 <=? c) && (c <=? 13)) || ((28 <=? c) && (c <=? 30))
  || (c =? 133) || (c =? 8232) || (c =? 8233).

(** [s.splitlines()]: a line ends at a boundary character, CR LF counts
    as one boundary, and no empty line is reported after the last
    boundary. *)
Fixpoint splitlines (s : str) : list str :=
  match s with
  | [] => []
  | c :: s' =>
      if is_linebreak c then
        [] :: match s' with
              | c' :: s'' =>
                  if (c =? 13) && (c' =? 10) then splitlines s''
                  else splitlines s'
              | [] => []
              end
      else
        match splitlines s' with
        | [] => [[c]]
        | l :: ls => (c :: l) :: ls
        end
  end.

(** [s.split()]: maximal runs of non-whitespace characters. *)
Fixpoint split (s : str) : list str :=
  match s with
  | [] => []
  | c :: s' =>
      if isspace c then split s'
      else
        match s' with
        | [] => [[c]]
        | c' :: _ =>
            if isspace c' then [c] :: split s'
            else match split s' with
                 | [] => [[c]]
                 | w :: ws => (c :: w) :: ws
                 end
        end
  end.

(** [s.split(sep)] for a one-character separator: never empty. *)
Fixpoint split_on (sep : char) (s : str) : list str :=
  match s with
  | [] => [[]]
  | c :: s' =>
      if c =? sep then [] :: split_on sep s'
      else match split_on sep s' with
           | [] => [[c]]
           | w :: ws => (c :: w) :: ws
           end
  end.

(** [s.lstrip()], [s.rstrip()], [s.strip()] *)
Fixpoint lstrip (s : str) : str :=
  match s with
  | [] => []
  | c :: s' => if isspace c then lstrip s' else s
  end.

Definition rstrip (s : str) : str := rev (lstrip (rev s)).

Definition strip (s : str) : str := rstrip (lstrip s).

(** [sep.join(parts)] *)
Fixpoint join (sep : str) (parts : list str) : str :=
  match parts with
  | [] => []
  | [p] => p
  | p :: ps => p ++ sep ++ join sep ps
  end.

(** [str(n)] for an integer: decimal, a minus sign when negative. *)
Definition of_Z (n : Z) : str :=
  lit (DecimalString.NilZero.string_of_int (Z.to_int n)).

(** Lexicographic order of strings by code point, the order of
    [sorted] on strings. *)
Fixpoint str_ltb (a b : str) : bool :=
  match a, b with
  | [], [] => false
  | [], _ :: _ => true
  | _ :: _, [] => false
  | x :: a', y :: b' => (x <? y) || ((x =? y) && str_ltb a' b')
  end.

End Str.

Import Str.


(** ** Exceptions *)

(** The exceptions the script can meet.  [SystemExit] is what [sys.exit]
    raises; every other one, uncaught, ends the process with a traceback. *)
Inductive exn : Type :=
| ValueError
| IndexError
| UnicodeEncodeError
| UnicodeDecodeError
| JSONDecodeError
| OSError
| RuntimeError
| SystemExit (code : Z).

Inductive result (A : Type) : Type :=
| Ok (a : A)
| Raise (e : exn).

Arguments Ok {A} a.
Arguments Raise {A} e.

Definition bind {A B} (c : result A) (k : A -> result B) : result B :=
  match c with
  | Ok a => k a
  | Raise e => Raise e
  end.

Declare Scope result_scope.
Delimit Scope result_scope with result.
Notation "x <- c ;; k" := (bind c (fun x => k))
  (at level 61, c at next level, right associativity) : result_scope.
Local Open Scope result_scope.

(** [try: body / except ValueError: handler]: only [ValueError] is
    caught, any other exception goes on to the caller. *)
Definition try_except_ValueError {A} (body handler : result A) : result A :=
  match body with
  | Raise ValueError => handler
  | r => r
  end.

(** [l[i]] *)
Definition index {A} (l : list A) (i : nat) : result A :=
  match nth_error l i with
  | Some x => Ok x
  | None => Raise IndexError
  end.

(** [for x in xs: st = body(st, x)], stopping at the first exception. *)
Fixpoint for_each {S A} (body : S -> A -> result S) (xs : list A) (st : S)
  : result S :=
  match xs with
  | [] => Ok st
  | x :: xs' => st' <- body st x ;; for_each body xs' st'
  end.

(** ** The dictionary built by the parser *)

(** One added line: its number in the new file and its text. *)
Definition entry : Type := Z * str.

(** A Python [dict] keeps its keys in insertion order and the driver walks
    it in that order: an association list with distinct keys. *)
Definition dict : Type := list (str * list entry).

(** [d.get(k)] *)
Fixpoint get (d : dict) (k : str) : option (list entry) :=
  match d with
  | [] => None
  | (k', v) :: d' => if str_eqb k k' then Some v else get d' k
  end.

(** [d.get(k, [])] *)
Definition get_or_empty (d : dict) (k : str) : list entry :=
  match get d k with
  | Some v => v
  | None => []
  end.

(** [d.setdefault(k, []).append(e)] *)
Fixpoint setdefault_append (d : dict) (k : str) (e : entry) : dict :=
  match d with
  | [] => [(k, [e])]
  | (k', v) :: d' =>
      if str_eqb k k' then (k', v ++ [e]) :: d'
      else (k', v) :: setdefault_append d' k e
  end.

(** ** Standard output and the collaborators *)

(** A computation that prints and may raise: the lines it prints, in
    order, and its result. *)
Definition io (A : Type) : Type := list str * result A.

Definition io_ret {A} (a : A) : io A := ([], Ok a).

Definition io_bind {A B} (c : io A) (k : A -> io B) : io B :=
  match c with
  | (out, Ok a) => (out ++ fst (k a), snd (k a))
  | (out, Raise e) => (out, Raise e)
  end.

Declare Scope io_scope.
Delimit Scope io_scope with io.
Notation "x <- c ;; k" := (io_bind c (fun x => k))
  (at level 61, c at next level, right associativity) : io_scope.
Notation "c ;; k" := (io_bind c (fun _ => k))
  (at level 61, right associativity) : io_scope.

(** [print(s)] *)
Definition print (s : str) : io unit := ([s], Ok tt).

(** [raise e], and [sys.exit(code)] which raises [SystemExit]. *)
Definition io_raise {A} (e : exn) : io A := ([], Raise e).

Definition sys_exit {A} (code : Z) : io A := io_raise (SystemExit code).

(** A computation that does not print. *)
Definition lift {A} (r : result A) : io A := ([], r).

(** The value of a collaborator's answer, or the exception its failure
    raises. *)
Definition or_raise {A} (e : exn) (o : option A) : result A :=
  match o with
  | Some a => Ok a
  | None => Raise e
  end.

(** [if b: c] *)
Definition when (b : bool) (c : io unit) : io unit :=
  if b then c else io_ret tt.

(** [for x in xs: body(x)] *)
Fixpoint io_for_each {A} (body : A -> io unit) (xs : list A) : io unit :=
  match xs with
  | [] => io_ret tt
  | x :: xs' => io_bind (body x) (fun _ => io_for_each body xs')
  end.

(** [for x in xs: acc = body(acc, x)] *)
Fixpoint io_fold {S A} (body : S -> A -> io S) (xs : list A) (acc : S)
  : io S :=
  match xs with
  | [] => io_ret acc
  | x :: xs' => io_bind (body acc x) (fun acc' => io_fold body xs' acc')
  end.

(** The status the process ends with: 0 when [main] returns, the code of
    [sys.exit], 1 after any other uncaught exception. *)
Definition exit_status (r : result unit) : Z :=
  match r with
  | Ok _ => 0
  | Raise (SystemExit code) => code
  | Raise _ => 1
  end.

(** The run was not cut short by an exception other than [SystemExit]. *)
Definition completes (r : result unit) : Prop :=
  match r with
  | Ok _ => True
  | Raise (SystemExit _) => True
  | Raise _ => False
  end.

(** What [Path(path).resolve().relative_to(repo_root)] comes to: the
    path relative to the root; [ValueError] for a path outside it; or a
    failure of [resolve] itself, [RuntimeError] on a symbolic-link loop
    (up to Python 3.12) and [OSError] otherwise. *)
Inductive resolution : Type :=
| Inside (rel : str)
| Outside
| Loop
| Unreadable.

Definition resolved (r : resolution) : result str :=
  match r with
  | Inside rel => Ok rel
  | Outside => Raise ValueError
  | Loop => Raise RuntimeError
  | Unreadable => Raise OSError
  end.

(** What the script asks of the outside: each collaborator is a function
    of its command line and input, with no answer when it fails. *)
Record world : Type := {
  (** [os.getenv(name)] *)
  getenv : str -> option str;
  (** [json.loads(text)] for a JSON array of strings; [None] when it
      raises [JSONDecodeError] *)
  json_loads : str -> option (list str);
  (** [os.path.isfile(path)] *)
  isfile : str -> bool;
  (** [open(path, 'r').read()]; [None] when it raises [OSError] *)
  read_file : str -> option str;
  (** [subprocess.run(argv, ...)]: the return code and standard output;
      [None] when the program cannot be started ([OSError]) *)
  subprocess_run : list str -> option (Z * str);
  (** [Popen(argv, stdin=PIPE, stdout=PIPE, text=True).communicate(input)]:
      the standard output; [None] when the program cannot be started *)
  popen_communicate : list str -> str -> option str;
  (** [glob.glob(pattern, recursive=True)] *)
  glob_glob : str -> list str;
  (** [str(Path(path).resolve().relative_to(Path(".").resolve()))] *)
  relative_to_root : str -> resolution;
  (** how an f-string renders a list, and a set, of strings *)
  format_list : list str -> str;
  format_set : list str -> str
}.

(** The namespace [parser.parse_args()] returns. *)
Record args : Type := {
  args_base_branch : str;
  args_include : str;
  args_exclude : str;
  args_cmd : str;
  args_dictionary : str;
  args_console_output : bool;
  args_diff_file : option str;
  args_input_string : option str;
  args_debug : bool
}.

(** Truthiness of a value that is a string or [None]. *)
Definition opt_truthy (o : option str) : bool :=
  match o with
  | Some s => truthy s
  | None => false
  end.

(** ** Sets of strings *)

(** A Python [set] of strings, as far as the script uses one: membership,
    emptiness, and the elements in some order without repetition. *)
Definition mem (x : str) (s : list str) : bool := existsb (str_eqb x) s.

Definition set_add (x : str) (s : list str) : list str :=
  if mem x s then s else s ++ [x].

(** [set(xs)] *)
Definition to_set (xs : list str) : list str :=
  fold_left (fun s x => set_add x s) xs [].

(** [a & b] and [a - b] *)
Definition set_inter (a b : list str) : list str :=
  filter (fun x => mem x b) a.

Definition set_diff (a b : list str) : list str :=
  filter (fun x => negb (mem x b)) a.

(** [sorted(s)] for a set. *)
Fixpoint insert_sorted (x : str) (l : list str) : list str :=
  match l with
  | [] => [x]
  | y :: l' => if str_ltb x y then x :: l else y :: insert_sorted x l'
  end.

Definition sorted (s : list str) : list str :=
  fold_right insert_sorted [] s.

(** [d[k] = v] *)
Fixpoint dict_set (d : dict) (k : str) (v : list entry) : dict :=
  match d with
  | [] => [(k, v)]
  | (k', v') :: d' =>
      if str_eqb k k' then (k', v) :: d' else (k', v') :: dict_set d' k v
  end.

(** [enumerate(xs)] *)
Fixpoint enumerate_from {A} (i : Z) (xs : list A) : list (Z * A) :=
  match xs with
  | [] => []
  | x :: xs' => (i, x) :: enumerate_from (i + 1) xs'
  end.

Definition enumerate {A} (xs : list A) : list (Z * A) := enumerate_from 0 xs.

(** ** The [utf-8] encoder *)

(** [bytes(s, "utf-8")]: a lone surrogate cannot be encoded. *)
Definition utf8_char (c : char) : result (list N) :=
  if c <? 128 then Ok [c]
  else if c <? 2048 then Ok [192 + c / 64; 128 + c mod 64]
  else if c <? 65536 then
    if (55296 <=? c) && (c <=? 57343) then Raise UnicodeEncodeError
    else Ok [224 + c / 4096; 128 + (c / 64) mod 64; 128 + c mod 64]
  else if c <? 1114112 then
    Ok [240 + c / 262144; 128 + (c / 4096) mod 64; 128 + (c / 64) mod 64;
        128 + c mod 64]
  else Raise UnicodeEncodeError.

Fixpoint utf8_encode (s : str) : result (list N) :=
  match s with
  | [] => Ok []
  | c :: s' =>
      b <- utf8_char c ;;
      bs <- utf8_encode s' ;;
      Ok (b ++ bs)
  end.

(** One result of the spell check: line number, word, line of context. *)
Definition annotation : Type := Z * str * str.

(** The text whose lines are [ls], each ended by a line feed. *)
Definition unlines (ls : list str) : str :=
  concat (map (fun l => l ++ [10]) ls).

(** ** Inputs of the concrete runs *)

(** An interpreter for ASCII inputs: nothing beyond Latin-1 is a letter or
    a digit, no character name is known, and the digit limit is the
    default. *)
Definition ascii_alpha : char -> bool := fun _ => false.
Definition ascii_decimal : char -> option N := fun _ => None.
Definition no_names : list N -> option char := fun _ => None.
Definition default_max_str_digits : N := 4300.

(** Two files, the second without a hunk header of its own. *)
Definition two_files_one_hunk : list str :=
  [lit "+++ b/a.md"; lit "@@ -0,0 +1 @@"; lit "+x"].

(** A header without a token that starts with [+], after a valid one. *)
Definition tokenless_header_diff : str :=
  unlines [lit "+++ b/f.md"; lit "@@ -1 +1 @@"; lit "+x"; lit "@@ garbage";
           lit "+y"].

(** The diff git gives for two files that each gain the lines [++ notes]
    and one more: in the diff the first of them reads [+++ notes]. *)
Definition plus_plus_notes_diff : str :=
  unlines [lit "diff --git a/a.md b/a.md"; lit "--- a/a.md";
           lit "+++ b/a.md"; lit "@@ -4,0 +5,2 @@"; lit "+++ notes";
           lit "+x";
           lit "diff --git a/b.md b/b.md"; lit "--- a/b.md";
           lit "+++ b/b.md"; lit "@@ -0,0 +1,2 @@"; lit "+++ notes";
           lit "+y"].

(** The diff git gives for one file that gains the lines [++ notes] and
    [x]. *)
Definition one_plus_plus_notes_diff : str :=
  unlines [lit "diff --git a/a.md b/a.md"; lit "--- a/a.md";
           lit "+++ b/a.md"; lit "@@ -4,0 +5,2 @@"; lit "+++ notes";
           lit "+x"].

(** The diff git gives when two files of two lines each are deleted. *)
Definition two_deletions_diff : str :=
  unlines [lit "diff --git a/x.md b/x.md"; lit "deleted file mode 100644";
           lit "index 814f4a4..0000000"; lit "--- a/x.md";
           lit "+++ /dev/null"; lit "@@ -1,2 +0,0 @@"; lit "-one";
           lit "-two";
           lit "diff --git a/y.md b/y.md"; lit "deleted file mode 100644";
           lit "index 814f4a4..0000000"; lit "--- a/y.md";
           lit "+++ /dev/null"; lit "@@ -1,2 +0,0 @@"; lit "-one";
           lit "-two"].

(** An added line, and a removed line, with a form feed (code 12) in
    their text. *)
Definition added_line_with_form_feed : str :=
  unlines [lit "+++ b/f.md"; lit "@@ -0,0 +1,2 @@";
           lit "+foo" ++ [12] ++ lit "bar"; lit "+baz"].

Definition removed_line_with_form_feed : str :=
  unlines [lit "+++ b/f.md"; lit "@@ -1 +0,0 @@";
           lit "-old text" ++ [12] ++ lit "+ghost"].

(** A repository where git reports [notes.md] as changed, with one added
    line, and the checker flags [teh]. *)
Definition notes_diff : str :=
  unlines [lit "diff --git a/notes.md b/notes.md"; lit "--- a/notes.md";
           lit "+++ b/notes.md"; lit "@@ -0,0 +1 @@"; lit "+teh cat"].

Definition git_world : world := {|
  getenv := fun _ => None;
  json_loads := fun text =>
    if str_eqb text (lit "[]") then Some [] else Some [lit "**/*.md"];
  isfile := fun _ => false;
  read_file := fun _ => None;
  subprocess_run := fun argv =>
    match nth_error argv 2 with
    | Some x =>
        if str_eqb x (lit "--name-only")
        then Some (0%Z, lit "notes.md" ++ [10])
        else if str_eqb x (lit "-U0") then Some (0%Z, notes_diff)
             else Some (0%Z, [])
    | None => Some (0%Z, [])
    end;
  popen_communicate := fun _ _ => Some (lit "teh" ++ [10]);
  glob_glob := fun pattern =>
    if str_eqb pattern (lit "**/*.md") then [lit "notes.md"] else [];
  relative_to_root := fun path => Inside path;
  format_list := fun _ => [];
  format_set := fun _ => []
|}.

Definition args_with (input_string diff_file : option str) : args := {|
  args_base_branch := lit "master";
  args_include := lit "[" ++ [34] ++ lit "**/*.md" ++ [34] ++ lit "]";
  args_exclude := lit "[]";
  args_cmd := lit "aspell list";
  args_dictionary := [];
  args_console_output := false;
  args_diff_file := diff_file;
  args_input_string := input_string;
  args_debug := false
|}.

(** The body of a hunk in a diff with context: two added lines among
    context and removed ones. *)
Definition hunk_with_context : list str :=
  [lit " unchanged"; lit "+first"; lit "-removed"; lit " unchanged";
   lit "+second"].

(** A diff with context, as [git diff] prints it without [-U0]. *)
Definition context_diff_preamble : list str :=
  [lit "diff --git a/file.md b/file.md"; lit "index 83db48f..bf269f4 100644";
   lit "--- a/file.md"].

Definition context_diff : str :=
  unlines (context_diff_preamble
             ++ lit "+++ b/file.md" :: lit "@@ -5,3 +7,5 @@"
             :: hunk_with_context).

(** One file recorded, then a header that names no path. *)
Definition before_empty_path : list str :=
  [lit "+++ b/a.md"; lit "@@ -0,0 +1 @@"; lit "+x"].

Definition after_empty_path : list str := [lit "@@ -0,0 +1 @@"; lit "+y"].

(** A repository where git answers every command with nothing and no
    pattern matches a path. *)
Definition silent_git_world : world := {|
  getenv := getenv git_world;
  json_loads := json_loads git_world;
  isfile := isfile git_world;
  read_file := read_file git_world;
  subprocess_run := fun _ => Some (0%Z, []);
  popen_communicate := popen_communicate git_world;
  glob_glob := fun _ => [];
  relative_to_root := fun _ => Outside;
  format_list := format_list git_world;
  format_set := format_set git_world
|}.

(** The world [w] with the file [changes.diff] that holds [notes_diff]. *)
Definition with_diff_file (w : world) : world := {|
  getenv := getenv w;
  json_loads := json_loads w;
  isfile := fun path => str_eqb path (lit "changes.diff");
  read_file := fun path =>
    if str_eqb path (lit "changes.diff") then Some notes_diff else None;
  subprocess_run := subprocess_run w;
  popen_communicate := popen_communicate w;
  glob_glob := glob_glob w;
  relative_to_root := relative_to_root w;
  format_list := format_list w;
  format_set := format_set w
|}.

(** A file with a letter outside ASCII in its name: git prints the path
    in quotes, the bytes of the letter as octal escapes. *)
Definition accented_file : str := lit "na" ++ [239] ++ lit "ve.md".

Definition quoted_path : str := 34 :: lit "b/na\303\257ve.md" ++ [34].

(** What [git diff -U0] prints for that file when it is new. *)
Definition quoted_diff_preamble : list str :=
  [lit "diff --git " ++ [34] ++ lit "a/na\303\257ve.md" ++ [34] ++ [32]
     ++ quoted_path;
   lit "new file mode 100644"; lit "index 0000000..5c5ed4e";
   lit "--- /dev/null"].

Definition quoted_diff : str :=
  unlines (quoted_diff_preamble
             ++ [lit "+++ " ++ quoted_path; lit "@@ -0,0 +1 @@";
                 lit "+teh cat"]).

Definition quoting_git_world : world := {|
  getenv := getenv git_world;
  json_loads := json_loads git_world;
  isfile := isfile git_world;
  read_file := read_file git_world;
  subprocess_run := fun _ => Some (0%Z, quoted_diff);
  popen_communicate := popen_communicate git_world;
  glob_glob := glob_glob git_world;
  relative_to_root := relative_to_root git_world;
  format_list := format_list git_world;
  format_set := format_set git_world
|}.

(** A checker that finds nothing. *)
Definition silent_checker_world : world := {|
  getenv := getenv git_world;
  json_loads := json_loads git_world;
  isfile := isfile git_world;
  read_file := read_file git_world;
  subprocess_run := subprocess_run git_world;
  popen_communicate := fun _ _ => Some [10];
  glob_glob := glob_glob git_world;
  relative_to_root := relative_to_root git_world;
  format_list := format_list git_world;
  format_set := format_set git_world
|}.

(** The repository of [git_world] with a detached head: [symbolic-ref]
    returns 1 and the fetch, once started, fails with 128. *)
Definition detached_world : world := {|
  getenv := getenv git_world;
  json_loads := json_loads git_world;
  isfile := isfile git_world;
  read_file := read_file git_world;
  subprocess_run := fun argv =>
    match nth_error argv 1 with
    | Some x =>
        if str_eqb x (lit "symbolic-ref") then Some (1%Z, [])
        else if str_eqb x (lit "fetch") then Some (128%Z, [])
             else subprocess_run git_world argv
    | None => subprocess_run git_world argv
    end;
  popen_communicate := popen_communicate git_world;
  glob_glob := glob_glob git_world;
  relative_to_root := relative_to_root git_world;
  format_list := format_list git_world;
  format_set := format_set git_world
|}.

(** The same with a fetch that cannot be started. *)
Definition detached_without_fetch_world : world := {|
  getenv := getenv git_world;
  json_loads := json_loads git_world;
  isfile := isfile git_world;
  read_file := read_file git_world;
  subprocess_run := fun argv =>
    match nth_error argv 1 with
    | Some x =>
        if str_eqb x (lit "symbolic-ref") then Some (1%Z, [])
        else if str_eqb x (lit "fetch") then None
             else subprocess_run git_world argv
    | None => subprocess_run git_world argv
    end;
  popen_communicate := popen_communicate git_world;
  glob_glob := glob_glob git_world;
  relative_to_root := relative_to_root git_world;
  format_list := format_list git_world;
  format_set := format_set git_world
|}.

(** A repository with a symbolic-link loop among the files that the
    pattern matches. *)
Definition looping_world : world := {|
  getenv := getenv git_world;
  json_loads := json_loads git_world;
  isfile := isfile git_world;
  read_file := read_file git_world;
  subprocess_run := subprocess_run git_world;
  popen_communicate := popen_communicate git_world;
  glob_glob := fun _ => [lit "notes.md"; lit "loop.md"];
  relative_to_root := fun path =>
    if str_eqb path (lit "loop.md") then Loop else Inside path;
  format_list := format_list git_world;
  format_set := format_set git_world
|}.

(** A world without a spell checker to start. *)
Definition no_checker_world : world := {|
  getenv := getenv git_world;
  json_loads := json_loads git_world;
  isfile := isfile git_world;
  read_file := read_file git_world;
  subprocess_run := subprocess_run git_world;
  popen_communicate := fun _ _ => None;
  glob_glob := glob_glob git_world;
  relative_to_root := relative_to_root git_world;
  format_list := format_list git_world;
  format_set := format_set git_world
|}.

(** The environment of an action whose [debug] input is [false]. *)
Definition debug_false_world : world := {|
  getenv := fun _ => Some (lit "false");
  json_loads := json_loads git_world;
  isfile := isfile git_world;
  read_file := read_file git_world;
  subprocess_run := subprocess_run git_world;
  popen_communicate := popen_communicate git_world;
  glob_glob := glob_glob git_world;
  relative_to_root := relative_to_root git_world;
  format_list := format_list git_world;
  format_set := format_set git_world
|}.

(** The arguments of a run on an input string with an allow-list. *)
Definition args_allowing (dictionary input_string : str) : args := {|
  args_base_branch := lit "master";
  args_include := lit "[]";
  args_exclude := lit "[]";
  args_cmd := lit "aspell list";
  args_dictionary := dictionary;
  args_console_output := false;
  args_diff_file := None;
  args_input_string := Some input_string;
  args_debug := false
|}.

(** ** The script *)

Section Interpreter.


(** The Unicode character database beyond the ranges written out here:
    [ucd_alpha c] is [chr(c).isalpha()] for [c >= 256], [ucd_decimal c]
    the decimal digit value of [c >= 127] when it has one. *)
Variable ucd_alpha : char -> bool.
Variable ucd_decimal : char -> option N.

(** [sys.get_int_max_str_digits()]: the longest digit string [int]
    converts; 0 switches the limit off (as in interpreters older than
    3.11), and strings of up to 640 digits are always converted. *)
Variable int_max_str_digits : N.

(** [unicodedata.lookup]: the code point a character name denotes, for
    the [\N{...}] escape. *)
Variable ucd_name : list N -> option char.

(** *** Built-ins that depend on the interpreter *)

(** [str.isalpha] on one character. *)
Definition isalpha (c : char) : bool :=
  if c <? 256 then
    ((65 <=? c) && (c <=? 90)) || ((97 <=? c) && (c <=? 122))
    || (c =? 170) || (c =? 181) || (c =? 186)
    || ((192 <=? c) && (c <=? 214)) || ((216 <=? c) && (c <=? 246))
    || (248 <=? c)
  else ucd_alpha c.

(** The value of a decimal digit, ASCII or not. *)
Definition decimal_value (c : char) : option N :=
  if (48 <=? c) && (c <=? 57) then Some (c - 48)
  else if c <? 127 then None
  else ucd_decimal c.

(** The blanks [int] skips around a numeral: the C locale's blanks and
    the non-ASCII Unicode ones. *)
Definition int_space (c : char) : bool :=
  ((9 <=? c) && (c <=? 13)) || (c =? 32) || ((127 <=? c) && isspace c).

Fixpoint skip_int_space (s : str) : str :=
  match s with
  | [] => []
  | c :: s' => if int_space c then skip_int_space s' else s
  end.

(** Digits with single underscores between them: the value read, the
    number of digits and the unread rest, or [None] on a doubled or
    trailing underscore. *)
Fixpoint scan_number (after_underscore : bool) (acc : Z) (digits : N)
         (s : str) : option (Z * N * str) :=
  match s with
  | [] => if after_underscore then None else Some (acc, digits, [])
  | c :: s' =>
      if c =? 95 then
        if after_underscore then None
        else scan_number true acc digits s'
      else
        match decimal_value c with
        | Some d => scan_number false (10 * acc + Z.of_N d)%Z (digits + 1) s'
        | None => if after_underscore then None else Some (acc, digits, s)
        end
  end.

(** Whether [int] refuses a numeral of that many digits. *)
Definition exceeds_digit_limit (digits : N) : bool :=
  (640 <? digits) && (0 <? int_max_str_digits)
  && (int_max_str_digits <? digits).

(** An optional sign: whether it is a minus, and what follows it. *)
Definition read_sign (s : str) : bool * str :=
  match s with
  | 43 :: r => (false, r)
  | 45 :: r => (true, r)
  | _ => (false, s)
  end.

(** [int(s)] for a string, base 10. *)
Definition py_int (s : str) : result Z :=
  let '(negative, s2) := read_sign (skip_int_space s) in
  if startswith [95] s2 then Raise ValueError
  else
    match scan_number false 0%Z 0 s2 with
    | None => Raise ValueError
    | Some (v, digits, rest) =>
        if digits =? 0 then Raise ValueError
        else if exceeds_digit_limit digits
        then Raise ValueError
        else if forallb int_space rest
        then Ok (if negative then (- v)%Z else v)
        else Raise ValueError
    end.

(** *** [parse_diff_content] *)

(** The three locals of the function. *)
Record parser_state : Type := mk_state {
  file_changes : dict;
  current_file : option str;
  current_line : option Z
}.

Definition initial_state : parser_state :=
  {| file_changes := []; current_file := None; current_line := None |}.

(** Lines 18-20: the path after the [+++ ] marker, without a leading
    [b/]. *)
Definition new_file_path (line : str) : str :=
  let current_file := slice_from 4 line in
  if startswith (lit "b/") current_file then slice_from 2 current_file
  else current_file.

(** Lines 22-27: the new value of [current_line] at a line that starts
    with [@@]. *)
Definition hunk_header (line : str) (current_line : option Z)
  : result (option Z) :=
  match find (startswith (lit "+")) (split line) with
  | Some m =>
      if truthy m then
        try_except_ValueError
          (first <- index (split_on 44 m) 0 ;;
           n <- py_int (slice_from 1 first) ;;
           Ok (Some n))
          (Ok None)
      else Ok current_line
  | None => Ok current_line
  end.

(** Lines 17-31: the body of the loop. *)
Definition parse_line (st : parser_state) (line : str)
  : result parser_state :=
  if startswith (lit "+++") line then
    Ok {| file_changes := file_changes st;
          current_file := Some (new_file_path line);
          current_line := current_line st |}
  else if startswith (lit "@@") line then
    n <- hunk_header line (current_line st) ;;
    Ok {| file_changes := file_changes st;
          current_file := current_file st;
          current_line := n |}
  else if startswith (lit "+") line && negb (startswith (lit "+++") line)
  then
    match current_file st, current_line st with
    | Some f, Some n =>
        if truthy f then
          Ok {| file_changes :=
                  setdefault_append (file_changes st) f (n, slice_from 1 line);
                current_file := Some f;
                current_line := Some (n + 1)%Z |}
        else Ok st
    | _, _ => Ok st
    end
  else Ok st.

Definition parse_diff_content (diff_text : str) : result dict :=
  st <- for_each parse_line (splitlines diff_text) initial_state ;;
  Ok (file_changes st).

(** *** The [unicode_escape] decoder *)

(** Where the decoder stands between two bytes. *)
Inductive escape_state : Type :=
| Plain
| Backslash
| Octal (value : N) (digits : nat)
| Hex (remaining : nat) (value : N)
| NameOpen
| Name (name : list N).

Definition is_octal (b : N) : bool := (48 <=? b) && (b <=? 55).

Definition hex_value (b : N) : option N :=
  if (48 <=? b) && (b <=? 57) then Some (b - 48)
  else if (97 <=? b) && (b <=? 102) then Some (b - 87)
  else if (65 <=? b) && (b <=? 70) then Some (b - 55)
  else None.

(** A byte outside an escape stands for the code point of its value. *)
Definition plain_byte (b : N) (out : str) : escape_state * str :=
  if b =? 92 then (Backslash, out) else (Plain, out ++ [b]).

(** The character of a one-letter escape. *)
Definition simple_escape (b : N) : option char :=
  if b =? 92 then Some 92
  else if b =? 39 then Some 39
  else if b =? 34 then Some 34
  else if b =? 98 then Some 8
  else if b =? 102 then Some 12
  else if b =? 116 then Some 9
  else if b =? 110 then Some 10
  else if b =? 114 then Some 13
  else if b =? 118 then Some 11
  else if b =? 97 then Some 7
  else None.

Definition escape_step (st : escape_state) (out : str) (b : N)
  : result (escape_state * str) :=
  match st with
  | Plain => Ok (plain_byte b out)
  | Backslash =>
      if b =? 10 then Ok (Plain, out)
      else
        match simple_escape b with
        | Some c => Ok (Plain, out ++ [c])
        | None =>
            if is_octal b then Ok (Octal (b - 48) 1, out)
            else if b =? 120 then Ok (Hex 2 0, out)
            else if b =? 117 then Ok (Hex 4 0, out)
            else if b =? 85 then Ok (Hex 8 0, out)
            else if b =? 78 then Ok (NameOpen, out)
            else Ok (Plain, out ++ [92; b])
        end
  | Octal v n =>
      if is_octal b then
        match n with
        | S (S _) => Ok (Plain, out ++ [v * 8 + (b - 48)])
        | _ => Ok (Octal (v * 8 + (b - 48)) (S n), out)
        end
      else Ok (plain_byte b (out ++ [v]))
  | Hex remaining v =>
      match hex_value b with
      | None => Raise UnicodeDecodeError
      | Some d =>
          let v' := v * 16 + d in
          match remaining with
          | S (S r) => Ok (Hex (S r) v', out)
          | _ =>
              if v' <=? 1114111 then Ok (Plain, out ++ [v'])
              else Raise UnicodeDecodeError
          end
      end
  | NameOpen =>
      if b =? 123 then Ok (Name [], out) else Raise UnicodeDecodeError
  | Name name =>
      if b =? 125 then
        match name with
        | [] => Raise UnicodeDecodeError
        | _ :: _ =>
            match ucd_name name with
            | Some c => Ok (Plain, out ++ [c])
            | None => Raise UnicodeDecodeError
            end
        end
      else Ok (Name (name ++ [b]), out)
  end.

Fixpoint escape_run (st : escape_state) (out : str) (bs : list N)
  : result str :=
  match bs with
  | [] =>
      match st with
      | Plain => Ok out
      | Octal v _ => Ok (out ++ [v])
      | _ => Raise UnicodeDecodeError
      end
  | b :: bs' =>
      next <- escape_step st out b ;;
      escape_run (fst next) (snd next) bs'
  end.

(** [bs.decode("unicode_escape")] *)
Definition unicode_escape_decode (bs : list N) : result str :=
  escape_run Plain [] bs.

(** Line 151: [bytes(s, "utf-8").decode("unicode_escape")] *)
Definition decode_input_string (s : str) : result str :=
  bs <- utf8_encode s ;; unicode_escape_decode bs.

(** *** [run_spell_checker] *)

(** Lines 91-95: what one word of a line adds to [annotations]. *)
Definition check_word (misspelled : list str)
           (dictionary_words : option (list str)) (lineno : Z) (line : str)
           (annotations : list annotation) (word : str) : list annotation :=
  let clean := filter isalpha word in
  if truthy clean && mem clean misspelled then
    match dictionary_words with
    | Some (w :: ws) =>
        if mem clean (w :: ws) then annotations
        else annotations ++ [(lineno, clean, strip line)]
    | _ => annotations ++ [(lineno, clean, strip line)]
    end
  else annotations.

(** Lines 88-96: the two nested loops. *)
Definition correlate (misspelled : list str)
           (dictionary_words : option (list str)) (lines : list entry)
  : list annotation :=
  fold_left
    (fun annotations '(lineno, line) =>
       fold_left (check_word misspelled dictionary_words lineno line)
                 (split line) annotations)
    lines [].

Definition run_spell_checker (w : world) (is_debug : bool)
           (lines : list entry) (cmd : str)
           (dictionary_words : option (list str)) : io (list annotation) :=
  (when is_debug (print (lit "Aspell cmd '" ++ cmd ++ lit "'")) ;;
   out <- lift (or_raise OSError
                  (popen_communicate w (split cmd)
                     (join [10] (map snd lines)))) ;;
   let misspelled := to_set (splitlines (strip out)) in
   io_ret (correlate misspelled dictionary_words lines))%io.

(** *** Rendering *)

Definition github_annotation (file : str) (a : annotation) : str :=
  let '(lineno, word, context) := a in
  lit "::error file=" ++ file ++ lit ",line=" ++ of_Z lineno
  ++ lit "::Possible typo: '" ++ word ++ lit "' in line: " ++ context.

Definition github_trace (file : str) (a : annotation) : str :=
  let '(lineno, word, context) := a in
  lit "Emitting github annotation for file='" ++ file ++ lit "',line='"
  ++ of_Z lineno ++ lit "'".

Definition console_line (file : str) (a : annotation) : str :=
  let '(lineno, word, context) := a in
  file ++ lit ":" ++ of_Z lineno ++ lit ": typo: '" ++ word
  ++ lit "' in: " ++ context.

Definition emit_github_annotations (is_debug : bool) (file : str)
           (annotations : list annotation) : io unit :=
  io_for_each
    (fun a => (when is_debug (print (github_trace file a)) ;;
               print (github_annotation file a))%io)
    annotations.

Definition emit_console_output (file : str) (annotations : list annotation)
  : io unit :=
  io_for_each (fun a => print (console_line file a)) annotations.

(** *** The sources of the diff *)

Definition is_detached_head (w : world) : io bool :=
  (r <- lift (or_raise OSError
                (subprocess_run w
                   [lit "git"; lit "symbolic-ref"; lit "--quiet";
                    lit "HEAD"])) ;;
   io_ret (negb (fst r =? 0)%Z))%io.

(** Lines 54-64: the paths the patterns match, relative to the root;
    those outside it are skipped, and a path that cannot be resolved
    ends the loops with the exception of [resolve]. *)
Definition glob_relative (w : world) (patterns : list str)
  : result (list str) :=
  for_each
    (fun paths pattern =>
       for_each
         (fun paths path =>
            try_except_ValueError
              (rel <- resolved (relative_to_root w path) ;;
               Ok (set_add rel paths))
              (Ok paths))
         (glob_glob w pattern) paths)
    patterns [].

Definition get_diff_files (w : world) (is_debug : bool) (base_branch : str)
           (includes excludes : list str) : io (list str) :=
  (detached <- is_detached_head w ;;
   when detached
     (when is_debug
        (print (lit "Detached HEAD detected. Fetching '" ++ base_branch
                ++ lit "'...")) ;;
      _ <- lift (or_raise OSError
                   (subprocess_run w
                      [lit "git"; lit "fetch"; lit "origin"; base_branch])) ;;
      io_ret tt) ;;
   let cmd := [lit "git"; lit "diff"; lit "--name-only";
               lit "origin/" ++ base_branch] in
   when is_debug
     (print (lit "git diff cmd: '" ++ format_list w cmd ++ lit "'")) ;;
   result <- lift (or_raise OSError (subprocess_run w cmd)) ;;
   let changed_files := to_set (splitlines (strip (snd result))) in
   when is_debug
     (print (lit "All files '" ++ format_set w changed_files ++ lit "'")) ;;
   included <- lift (glob_relative w includes) ;;
   excluded <- lift (glob_relative w excludes) ;;
   let changed_files :=
     sorted (set_diff (set_inter changed_files included) excluded) in
   when is_debug
     (print (lit "Filtered files " ++ format_list w changed_files)) ;;
   io_ret changed_files)%io.

Definition get_diff_lines (w : world) (is_debug : bool) (file : str)
           (base_branch : str) : io (list entry) :=
  (let cmd := [lit "git"; lit "diff"; lit "-U0";
               lit "origin/" ++ base_branch; lit "--"; file] in
   when is_debug (print (lit "Diff cmd '" ++ format_list w cmd ++ lit "'")) ;;
   result <- lift (or_raise OSError (subprocess_run w cmd)) ;;
   d <- lift (parse_diff_content (snd result)) ;;
   io_ret (get_or_empty d file))%io.

(** *** [main] *)

(** Lines 150-168: the file changes to check, or [None] when [main]
    returns at "No files to check". *)
Definition load_changes (w : world) (a : args) (is_debug : bool)
           (includes excludes : list str) : io (option dict) :=
  (if opt_truthy (args_input_string a) then
     lines <- lift (decode_input_string
                      (match args_input_string a with
                       | Some s => s
                       | None => []
                       end)) ;;
     if startswith (lit "diff") (lstrip lines) then
       file_changes <- lift (parse_diff_content lines) ;;
       io_ret (Some file_changes)
     else
       io_ret (Some [(lit "<stdin>",
                      map (fun '(i, line) => ((i + 1)%Z, line))
                          (enumerate (splitlines lines)))])
   else if opt_truthy (args_diff_file a) then
     let path := match args_diff_file a with
                 | Some p => p
                 | None => []
                 end in
     if negb (isfile w path) then
       print (10060 :: lit " Diff file not found: " ++ path) ;;
       sys_exit 1
     else
       diff_text <- lift (or_raise OSError (read_file w path)) ;;
       file_changes <- lift (parse_diff_content diff_text) ;;
       io_ret (Some file_changes)
   else
     files <- get_diff_files w is_debug (args_base_branch a)
                includes excludes ;;
     match files with
     | [] =>
         print (9989 :: lit " No files to check.") ;;
         io_ret None
     | _ :: _ =>
         file_changes <-
           io_fold
             (fun d f =>
                lines <- get_diff_lines w is_debug f (args_base_branch a) ;;
                io_ret (dict_set d f lines))
             files [] ;;
         io_ret (Some file_changes)
     end)%io.

(** Lines 175-178: the two renderings exclude each other. *)
Definition render (console_output is_debug : bool) (file : str)
           (annotations : list annotation) : io unit :=
  if console_output then emit_console_output file annotations
  else emit_github_annotations is_debug file annotations.

(** Lines 170-178: the loop over the files; the result is [any_issues]. *)
Definition check_files (w : world) (a : args) (is_debug : bool)
           (dictionary_words : list str) (file_changes : dict) : io bool :=
  io_fold
    (fun any_issues '(file, lines) =>
       (annotations <- run_spell_checker w is_debug lines (args_cmd a)
                         (Some dictionary_words) ;;
        match annotations with
        | [] => io_ret any_issues
        | _ :: _ =>
            render (args_console_output a) is_debug file annotations ;;
            io_ret true
        end)%io)
    file_changes false.

Definition no_typos_message : str := 9989 :: lit " No typos found.".

Definition main (w : world) (a : args) : io unit :=
  (let is_debug :=
     opt_truthy (getenv w (lit "INPUT_DEBUG")) || args_debug a in
   includes <- lift (or_raise JSONDecodeError
                       (json_loads w (args_include a))) ;;
   excludes <- lift (or_raise JSONDecodeError
                       (json_loads w (args_exclude a))) ;;
   let dictionary_words :=
     if truthy (args_dictionary a) then to_set (split (args_dictionary a))
     else [] in
   source <- load_changes w a is_debug includes excludes ;;
   match source with
   | None => io_ret tt
   | Some file_changes =>
       any_issues <- check_files w a is_debug dictionary_words file_changes ;;
       if any_issues then sys_exit 1 else print no_typos_message
   end)%io.

(** ** The vocabulary of the statements *)

(** *** The parser as a fold *)

(** The state after one line, and after a list of lines. *)
Definition step (st : parser_state) (line : str) : parser_state :=
  match parse_line st line with
  | Ok st' => st'
  | Raise _ => st
  end.

Definition run (lines : list str) (st : parser_state) : parser_state :=
  fold_left step lines st.

(** *** The kinds of diff line the parser tells apart *)

Definition is_file_header (line : str) : bool :=
  startswith (lit "+++") line.

Definition is_hunk_header (line : str) : bool :=
  startswith (lit "@@") line.

Definition is_added (line : str) : bool :=
  startswith (lit "+") line && negb (startswith (lit "+++") line).

(** [current_line] after a hunk-header line. *)
Definition hunk_next (line : str) (cur : option Z) : option Z :=
  match hunk_header line cur with
  | Ok n => n
  | Raise _ => cur
  end.

(** The start line a hunk header declares, when it parses: a valid hunk
    header is a line with [is_hunk_header] and [hunk_start] defined. *)
Definition hunk_start (line : str) : option Z := hunk_next line None.

Definition valid_hunk_header (line : str) : bool :=
  is_hunk_header line
  && match hunk_start line with Some _ => true | None => false end.

(** *** Diff texts built from their lines *)

Definition no_linebreak (l : str) : Prop :=
  forallb (fun c => negb (is_linebreak c)) l = true.

Definition no_space (w : str) : Prop :=
  forallb (fun c => negb (isspace c)) w = true.

(** *** Decimal numerals *)

Definition is_digit (c : char) : bool := (48 <=? c) && (c <=? 57).

(** A numeral: a non-empty string of ASCII digits. *)
Definition numeral (s : str) : Prop :=
  s <> [] /\ forallb is_digit s = true.

(** The number a numeral denotes. *)
Definition numeral_value (s : str) : Z :=
  fold_left (fun acc c => (10 * acc + Z.of_N (c - 48))%Z) s 0%Z.

(** The numeral is short enough for [int] to convert it. *)
Definition within_digit_limit (s : str) : Prop :=
  exceeds_digit_limit (N.of_nat (length s)) = false.

(** *** A single-hunk diff for one file *)

(** The [+++] line for [F], with the [b/] prefix of git or without. *)
Definition file_header_line (with_b : bool) (F : str) : str :=
  lit "+++ " ++ (if with_b then lit "b/" else []) ++ F.

(** The hunk header [@@ -A,B +C,D @@]. *)
Definition hunk_line (A B C D : str) : str :=
  lit "@@ -" ++ A ++ [44] ++ B ++ lit " +" ++ C ++ [44] ++ D ++ lit " @@".

(** Consecutive numbering from [n]. *)
Fixpoint numbered (n : Z) (ts : list str) : list entry :=
  match ts with
  | [] => []
  | t :: ts' => (n, t) :: numbered (n + 1) ts'
  end.

(** The dictionary with one file, or none when it has no entry. *)
Definition single_file (F : str) (es : list entry) : dict :=
  match es with
  | [] => []
  | _ :: _ => [(F, es)]
  end.

(** What the claim promises of the diff made of the header for [F], the
    hunk header [@@ -A,B +C,D @@] and the lines [+t] for [t] in [ts]:
    [F] alone has entries, as many as there are lines, and the [i]-th
    one pairs [C + i] with the [i]-th text. *)
Definition round_trip (with_b : bool) (F A B C D : str) (ts : list str)
  : Prop :=
  exists d,
    parse_diff_content
      (unlines (file_header_line with_b F :: hunk_line A B C D
                  :: map (cons 43) ts)) = Ok d
    /\ (forall F', F' <> F -> get d F' = None)
    /\ length (get_or_empty d F) = length ts
    /\ forall i t, nth_error ts i = Some t ->
         nth_error (get_or_empty d F) i
         = Some ((numeral_value C + Z.of_nat i)%Z, t).

(** *** Where an entry comes from *)

(** Entry [e] of file [F] was recorded from an added line that follows a
    valid hunk header, at a point where [F] was the current file. *)
Definition recorded (lines : list str) (F : str) (e : entry) : Prop :=
  exists pre h mid post,
    lines = pre ++ h :: mid ++ (43 :: snd e) :: post
    /\ valid_hunk_header h = true
    /\ is_added (43 :: snd e) = true
    /\ current_file (run (pre ++ h :: mid) initial_state) = Some F.

Definition origin_inv (lines : list str) (st : parser_state) : Prop :=
  (forall n, current_line st = Some n ->
     exists pre h mid, lines = pre ++ h :: mid /\ valid_hunk_header h = true)
  /\ (forall F es, get (file_changes st) F = Some es ->
        es <> [] /\ forall e, In e es -> recorded lines F e).

(** *** Hunks in ascending order *)

(** Where a line stands: before the first [+++] header, under a header
    whose path had no added line under an earlier header, or under one
    whose path had. *)
Inductive segment : Type :=
| NoFile
| Fresh (path : str)
| Repeated.

(** The shape a diff tool gives its output, read off the lines alone.
    No added line stands under a [+++] header whose non-empty path had
    added lines under an earlier header; and under a header whose path
    has had an added line, every valid hunk header starts at or after
    the previous valid start plus the number of added lines since.
    [used] holds the paths that had added lines after a valid hunk
    header, [seg] says where the line stands and [next] is the last valid
    start plus the number of such added lines since. *)
Fixpoint hunks_in_order (used : list str) (seg : segment)
         (next : option Z) (ls : list str) : bool :=
  match ls with
  | [] => true
  | l :: ls' =>
      if is_file_header l then
        hunks_in_order used
          (if truthy (new_file_path l) && mem (new_file_path l) used
           then Repeated else Fresh (new_file_path l))
          next ls'
      else if is_hunk_header l then
        match hunk_start l with
        | Some c =>
            match seg, next with
            | Fresh p, Some n => if mem p used then (n <=? c)%Z else true
            | _, _ => true
            end
            && hunks_in_order used seg (Some c) ls'
        | None => hunks_in_order used seg next ls'
        end
      else if is_added l then
        match seg with
        | NoFile => hunks_in_order used seg next ls'
        | Repeated => false
        | Fresh p =>
            match next with
            | Some n =>
                if truthy p
                then hunks_in_order (p :: used) seg (Some (n + 1)%Z) ls'
                else hunks_in_order used seg next ls'
            | None => hunks_in_order used seg next ls'
            end
        end
      else hunks_in_order used seg next ls'
  end.

Definition increasing (es : list entry) : Prop :=
  StronglySorted Z.lt (map fst es).

Definition below (b : Z) (es : list entry) : Prop :=
  Forall (fun e => (fst e < b)%Z) es.

(** The bound under which the current file's numbers stay. *)
Definition bound (m : Z) (cur : option Z) : Z :=
  match cur with
  | Some n => n
  | None => m
  end.

Definition order_inv (used : list str) (seg : segment) (next : option Z)
           (st : parser_state) : Prop :=
  (forall F es, get (file_changes st) F = Some es ->
     In F used /\ increasing es)
  /\ match next with
     | None => current_line st = None
     | Some m => forall n, current_line st = Some n -> (n <= m)%Z
     end
  /\ match seg with
     | NoFile => current_file st = None
     | Repeated => True
     | Fresh p =>
         current_file st = Some p
         /\ (truthy p = true ->
             forall es, get (file_changes st) p = Some es ->
               exists m, next = Some m
                         /\ below (bound m (current_line st)) es)
     end.

(** *** The correlation of words and lines *)

(** Whether the allow-list holds the word. *)
Definition allow_listed (dictionary_words : option (list str)) (word : str)
  : bool :=
  match dictionary_words with
  | Some d => mem word d
  | None => false
  end.

(** The annotations as the specification words them: every line is split
    on whitespace, every token stripped of its non-alphabetic characters,
    and the candidate kept when it is non-empty, flagged and not
    allow-listed. *)
Definition flagged_tokens (misspelled : list str)
           (dictionary_words : option (list str)) (lines : list entry)
  : list annotation :=
  flat_map
    (fun '(lineno, line) =>
       flat_map
         (fun token =>
            let candidate := filter isalpha token in
            if truthy candidate && mem candidate misspelled
               && negb (allow_listed dictionary_words candidate)
            then [(lineno, candidate, strip line)]
            else [])
         (split line))
    lines.

(** *** The input string *)

(** ASCII characters other than the backslash: text the decoding leaves
    as it is. *)
Definition plain_ascii (s : str) : Prop :=
  forallb (fun c => (c <? 128) && negb (c =? 92)) s = true.

(** What lines 151-155 make of the input string [s]: when the decoding
    raises, so does the step; else the decoded text is parsed as a diff
    or numbered as the lines of [<stdin>]. *)
Definition classified (w : world) (a : args) (is_debug : bool)
           (includes excludes : list str) (s : str) : Prop :=
  match decode_input_string s with
  | Raise e =>
      load_changes w a is_debug includes excludes = ([], Raise e)
  | Ok text =>
      if startswith (lit "diff") (lstrip text) then
        exists d,
          parse_diff_content text = Ok d
          /\ load_changes w a is_debug includes excludes = ([], Ok (Some d))
      else
        exists entries,
          load_changes w a is_debug includes excludes
          = ([], Ok (Some [(lit "<stdin>", entries)]))
          /\ map snd entries = splitlines text
          /\ forall i line,
               nth_error (splitlines text) i = Some line ->
               nth_error entries i = Some ((Z.of_nat i + 1)%Z, line)
  end.

(** *** Runs of [main] *)

(** The values [main] computes before it selects its source. *)
Definition main_debug (w : world) (a : args) : bool :=
  opt_truthy (getenv w (lit "INPUT_DEBUG")) || args_debug a.

Definition main_dictionary (a : args) : list str :=
  if truthy (args_dictionary a) then to_set (split (args_dictionary a))
  else [].

(** The annotations [run_spell_checker] returns for one file of the run. *)
Definition file_annotations (w : world) (a : args)
           (file_lines : str * list entry) : list annotation :=
  match snd (run_spell_checker w (main_debug w a) (snd file_lines)
               (args_cmd a) (Some (main_dictionary a))) with
  | Ok annotations => annotations
  | Raise _ => []
  end.

(** The annotations a run produces, over all the files it checks. *)
Definition produced (w : world) (a : args) : list annotation :=
  match json_loads w (args_include a), json_loads w (args_exclude a) with
  | Some includes, Some excludes =>
      match snd (load_changes w a (main_debug w a) includes excludes) with
      | Ok (Some file_changes) =>
          flat_map (file_annotations w a) file_changes
      | _ => []
      end
  | _, _ => []
  end.

(** The path named by [--diff-file] does not exist. *)
Definition diff_file_missing (w : world) (a : args) : Prop :=
  exists path, args_diff_file a = Some path /\ isfile w path = false.


(** [resolve] does not fail on the path. *)
Definition resolvable (r : resolution) : Prop :=
  match r with
  | Inside _ | Outside => True
  | Loop | Unreadable => False
  end.

(** What a run needs of its arguments and of the outside so that no
    exception cuts it short: the two lists are valid JSON, the input
    string can be decoded, the diff file that exists can be read, git
    and the spell checker can be started and the globbed paths
    resolved. *)
Definition run_ready (w : world) (a : args) : Prop :=
  json_loads w (args_include a) <> None
  /\ json_loads w (args_exclude a) <> None
  /\ (forall s, args_input_string a = Some s ->
        exists text, decode_input_string s = Ok text)
  /\ (forall path, args_diff_file a = Some path -> isfile w path = true ->
        read_file w path <> None)
  /\ (forall argv, subprocess_run w argv <> None)
  /\ (forall argv input, popen_communicate w argv input <> None)
  /\ (forall path, resolvable (relative_to_root w path)).



(** *** The exit status *)



(** Whether a list has an element. *)
Definition nonempty {A} (l : list A) : bool :=
  match l with
  | [] => false
  | _ :: _ => true
  end.

(** ** The vocabulary of the further properties *)

(** *** Lines the parser acts on *)

(** A line that can change the parser's state: a [+++] header, a line
    that starts with [@@], or an added line. *)
Definition acts (line : str) : bool :=
  is_file_header line || is_hunk_header line || is_added line.

(** The texts of the added lines among [ls], in order. *)
Definition added_texts (ls : list str) : list str :=
  map (slice_from 1) (filter is_added ls).

(** The text whose lines are [ls], each ended by carriage return and
    line feed. *)
Definition crlf_lines (ls : list str) : str :=
  concat (map (fun l => l ++ [13; 10]) ls).

(** The keys of a dictionary, in insertion order, and the number of
    entries it holds over all its keys. *)
Definition keys (d : dict) : list str := map fst d.

Definition entry_count (d : dict) : nat :=
  fold_right (fun kv n => (length (snd kv) + n)%nat) 0%nat d.

(** *** The path filter *)

(** Some pattern of [patterns] matches a path that, taken relative to
    the root, is [f]. *)
Definition matched (w : world) (patterns : list str) (f : str) : Prop :=
  exists pattern path,
    In pattern patterns /\ In path (glob_glob w pattern)
    /\ relative_to_root w path = Inside f.

(** [resolve] fails with [e] on a path that some pattern matches. *)
Definition unresolved (w : world) (patterns : list str) (e : exn) : Prop :=
  exists pattern path,
    In pattern patterns /\ In path (glob_glob w pattern)
    /\ e <> ValueError
    /\ resolved (relative_to_root w path) = Raise e.

Definition str_lt (a b : str) : Prop := str_ltb a b = true.

(** The command line of [git diff --name-only]. *)
Definition name_only_cmd (base_branch : str) : list str :=
  [lit "git"; lit "diff"; lit "--name-only"; lit "origin/" ++ base_branch].

(** *** The input string, the checker and the git diff *)

(** No character of [s] is a backslash. *)
Definition backslash_free (s : str) : Prop :=
  forallb (fun c => negb (c =? 92)) s = true.

(** The word of an annotation. *)
Definition annotation_word (an : annotation) : str := snd (fst an).

(** The command line of [git diff -U0] for one file. *)
Definition diff_cmd (base_branch file : str) : list str :=
  [lit "git"; lit "diff"; lit "-U0"; lit "origin/" ++ base_branch; lit "--";
   file].

(** Lines 50-69 without the debug lines: the files of git's answer
    [stdout] that pass the filter. *)
Definition filtered_files (w : world) (stdout : str)
           (includes excludes : list str) : result (list str) :=
  included <- glob_relative w includes ;;
  excluded <- glob_relative w excludes ;;
  Ok (sorted
        (set_diff (set_inter (to_set (splitlines (strip stdout))) included)
           excluded)).

(** The command lines of [is_detached_head] and of the fetch. *)
Definition symbolic_ref_cmd : list str :=
  [lit "git"; lit "symbolic-ref"; lit "--quiet"; lit "HEAD"].

Definition fetch_cmd (base_branch : str) : list str :=
  [lit "git"; lit "fetch"; lit "origin"; base_branch].

(** *** What a run prints *)

(** The line one annotation is printed as, debugging off. *)
Definition annotation_line (a : args) (file : str) (an : annotation)
  : str :=
  if args_console_output a then console_line file an
  else github_annotation file an.

(** The annotation lines of a run over [file_changes], file by file. *)
Definition annotation_lines (w : world) (a : args) (file_changes : dict)
  : list str :=
  flat_map
    (fun file_lines =>
       map (annotation_line a (fst file_lines))
           (file_annotations w a file_lines))
    file_changes.

Definition no_files_message : str := 9989 :: lit " No files to check.".

Definition missing_diff_file_message (path : str) : str :=
  10060 :: lit " Diff file not found: " ++ path.

(** The line [run_spell_checker] prints first when debugging is on. *)
Definition checker_trace (a : args) : str :=
  lit "Aspell cmd '" ++ args_cmd a ++ lit "'".

(** The computation prints nothing. *)
Definition io_quiet {A} (c : io A) : Prop := fst c = [].

(** ** Properties of the built-ins *)

Lemma str_eqb_refl (a : str) : str_eqb a a = true.
Proof.
  induction a as [|x a IH]; simpl; [reflexivity|].
  now rewrite N.eqb_refl, IH.
Qed.

Lemma str_eqb_eq (a b : str) : str_eqb a b = true <-> a = b.
Proof.
  split; [|intros ->; apply str_eqb_refl].
  revert b; induction a as [|x a IH]; intros [|y b]; simpl; try discriminate;
    [reflexivity|].
  intros H; apply andb_prop in H as [Hx Hab].
  apply N.eqb_eq in Hx; subst; f_equal; auto.
Qed.

Lemma str_eqb_neq (a b : str) : str_eqb a b = false <-> a <> b.
Proof.
  split.
  - intros H E; apply str_eqb_eq in E; congruence.
  - intros H; destruct (str_eqb a b) eqn:E; [|reflexivity].
    apply str_eqb_eq in E; contradiction.
Qed.


Lemma startswith_first (c : char) (p s : str) :
  startswith (c :: p) s = true -> exists s', s = c :: s'.
Proof.
  destruct s as [|y s]; [discriminate|].
  cbv beta iota delta [startswith]; fold startswith.
  destruct (N.eqb_spec c y); [subst; eauto|discriminate].
Qed.

Lemma split_on_not_nil (sep : char) (s : str) : split_on sep s <> [].
Proof.
  destruct s as [|c s]; simpl; [discriminate|].
  destruct (c =? sep); [discriminate|].
  destruct (split_on sep s); discriminate.
Qed.

(** [int] raises nothing but [ValueError]. *)
Lemma py_int_raises (s : str) (e : exn) :
  py_int s = Raise e -> e = ValueError.
Proof.
  unfold py_int.
  destruct (read_sign (skip_int_space s)) as [negative s2].
  destruct (startswith [95] s2); [now intros [= <-]|].
  destruct (scan_number false 0 0 s2) as [[[v digits] rest]|];
    [|now intros [= <-]].
  destruct (digits =? 0); [now intros [= <-]|].
  destruct (exceeds_digit_limit digits); [now intros [= <-]|].
  destruct (forallb int_space rest); [discriminate|now intros [= <-]].
Qed.

(** ** Properties of the parser *)

(** The hunk-header step never raises: indexing the comma-separated
    pieces at 0 is always in range, and [ValueError] is caught. *)
Lemma hunk_header_total (line : str) (cur : option Z) :
  exists n, hunk_header line cur = Ok n.
Proof.
  unfold hunk_header.
  destruct (find (startswith (lit "+")) (split line)) as [m|]; [|eauto].
  destruct (truthy m); [|eauto].
  unfold index.
  destruct (split_on 44 m) as [|first rest] eqn:E;
    [now apply split_on_not_nil in E|].
  unfold try_except_ValueError, bind, nth_error.
  destruct (py_int (slice_from 1 first)) as [n|e] eqn:P; [eauto|].
  apply py_int_raises in P; subst; eauto.
Qed.

Lemma parse_line_total (st : parser_state) (line : str) :
  exists st', parse_line st line = Ok st'.
Proof.
  unfold parse_line.
  destruct (startswith (lit "+++") line); [eauto|].
  destruct (startswith (lit "@@") line).
  - destruct (hunk_header_total line (current_line st)) as [n ->].
    simpl; eauto.
  - destruct (startswith (lit "+") line && negb false); [|eauto].
    destruct (current_file st) as [f|], (current_line st) as [n|]; eauto.
    destruct (truthy f); eauto.
Qed.

Lemma parse_line_step (st : parser_state) (line : str) :
  parse_line st line = Ok (step st line).
Proof.
  unfold step.
  now destruct (parse_line_total st line) as [st' ->].
Qed.

Lemma for_each_run (lines : list str) (st : parser_state) :
  for_each parse_line lines st = Ok (run lines st).
Proof.
  revert st; induction lines as [|l lines IH]; intros st; simpl;
    [reflexivity|].
  rewrite parse_line_step; simpl; apply IH.
Qed.

Lemma parse_diff_content_run (diff_text : str) :
  parse_diff_content diff_text
  = Ok (file_changes (run (splitlines diff_text) initial_state)).
Proof.
  unfold parse_diff_content.
  now rewrite for_each_run.
Qed.

Lemma hunk_header_not_file_header (line : str) :
  is_hunk_header line = true -> is_file_header line = false.
Proof.
  unfold is_hunk_header, is_file_header; intros H.
  now destruct (startswith_first 64 [64] line H) as [s' ->].
Qed.

Lemma added_not_file_header (line : str) :
  is_added line = true -> is_file_header line = false.
Proof.
  unfold is_added, is_file_header.
  intros H; apply andb_prop in H as [_ H].
  now apply negb_true_iff in H.
Qed.

Lemma added_not_hunk_header (line : str) :
  is_added line = true -> is_hunk_header line = false.
Proof.
  unfold is_added, is_hunk_header; intros H.
  apply andb_prop in H as [H _].
  now destruct (startswith_first 43 [] line H) as [s' ->].
Qed.

(** An added line is a [+] followed by the text that is recorded. *)
Lemma added_shape (line : str) :
  is_added line = true -> line = 43 :: slice_from 1 line.
Proof.
  unfold is_added; intros H.
  apply andb_prop in H as [H _].
  now destruct (startswith_first 43 [] line H) as [s' ->].
Qed.

Lemma step_file_header (st : parser_state) (line : str) :
  is_file_header line = true ->
  step st line = {| file_changes := file_changes st;
                    current_file := Some (new_file_path line);
                    current_line := current_line st |}.
Proof.
  unfold step, parse_line, is_file_header; now intros ->.
Qed.

Lemma step_hunk_header (st : parser_state) (line : str) :
  is_hunk_header line = true ->
  step st line = {| file_changes := file_changes st;
                    current_file := current_file st;
                    current_line := hunk_next line (current_line st) |}.
Proof.
  intros H; pose proof (hunk_header_not_file_header _ H) as H'.
  unfold step, parse_line, hunk_next.
  unfold is_file_header in H'; unfold is_hunk_header in H.
  rewrite H', H.
  now destruct (hunk_header_total line (current_line st)) as [n ->].
Qed.

Lemma step_added (st : parser_state) (line : str) :
  is_added line = true ->
  step st line =
  match current_file st, current_line st with
  | Some f, Some n =>
      if truthy f then
        {| file_changes :=
             setdefault_append (file_changes st) f (n, slice_from 1 line);
           current_file := Some f;
           current_line := Some (n + 1)%Z |}
      else st
  | _, _ => st
  end.
Proof.
  intros H.
  pose proof (added_not_file_header _ H) as H1.
  pose proof (added_not_hunk_header _ H) as H2.
  unfold step, parse_line.
  unfold is_file_header in H1; unfold is_hunk_header in H2;
    unfold is_added in H.
  apply andb_prop in H as [H _].
  rewrite H1, H2, H; cbv beta iota delta [negb andb].
  destruct (current_file st) as [f|], (current_line st) as [n|];
    try reflexivity.
  now destruct (truthy f).
Qed.

Lemma step_other (st : parser_state) (line : str) :
  is_file_header line = false -> is_hunk_header line = false ->
  is_added line = false ->
  step st line = st.
Proof.
  unfold step, parse_line, is_file_header, is_hunk_header, is_added.
  intros H1 H2 H3; rewrite H1 in *; rewrite H2.
  now destruct (startswith (lit "+") line).
Qed.

(** A header that parses sets the counter whatever it was; one that does
    not either clears the counter (the numeral is bad) or leaves it as it
    was (no token starts with [+]). *)
Lemma hunk_next_valid (line : str) (c : Z) (cur : option Z) :
  hunk_start line = Some c -> hunk_next line cur = Some c.
Proof.
  unfold hunk_start, hunk_next, hunk_header.
  destruct (find (startswith (lit "+")) (split line)) as [m|];
    [|discriminate].
  destruct (truthy m); [|discriminate].
  now destruct (try_except_ValueError _ _).
Qed.

Lemma hunk_next_invalid (line : str) (cur : option Z) :
  hunk_start line = None ->
  hunk_next line cur = None \/ hunk_next line cur = cur.
Proof.
  unfold hunk_start, hunk_next, hunk_header.
  destruct (find (startswith (lit "+")) (split line)) as [m|]; [|now right].
  destruct (truthy m); [|now right].
  destruct (try_except_ValueError _ _); [left; assumption|now right].
Qed.

Lemma run_app (l1 l2 : list str) (st : parser_state) :
  run (l1 ++ l2) st = run l2 (run l1 st).
Proof. apply fold_left_app. Qed.

Lemma run_cons (l : str) (ls : list str) (st : parser_state) :
  run (l :: ls) st = run ls (step st l).
Proof. reflexivity. Qed.

Lemma splitlines_line (l rest : str) :
  no_linebreak l ->
  splitlines (l ++ 10 :: rest) = l :: splitlines rest.
Proof.
  unfold no_linebreak.
  induction l as [|c l IH]; intros H.
  - now destruct rest.
  - cbn [forallb] in H; apply andb_prop in H as [Hc Hl].
    apply negb_true_iff in Hc.
    cbn [app splitlines]; rewrite Hc, (IH Hl); reflexivity.
Qed.

Lemma splitlines_unlines (ls : list str) :
  Forall no_linebreak ls -> splitlines (unlines ls) = ls.
Proof.
  induction 1 as [|l ls Hl _ IH]; [reflexivity|].
  unfold unlines in *; cbn [map concat].
  rewrite <- app_assoc; cbn [app].
  now rewrite splitlines_line, IH.
Qed.

Lemma split_cons_cons (x y : char) (s : str) :
  split (x :: y :: s) =
  if isspace x then split (y :: s)
  else if isspace y then [x] :: split (y :: s)
       else match split (y :: s) with
            | [] => [[x]]
            | w :: ws => (x :: w) :: ws
            end.
Proof. reflexivity. Qed.

Lemma split_skip_blank (c : char) (s : str) :
  isspace c = true -> split (c :: s) = split s.
Proof. intros H; cbn [split]; now rewrite H. Qed.

(** A word followed by a blank is the first piece of [split]. *)
Lemma split_word (w : str) (c : char) (rest : str) :
  w <> [] -> no_space w -> isspace c = true ->
  split (w ++ c :: rest) = w :: split rest.
Proof.
  unfold no_space.
  induction w as [|x w IH]; [congruence|]; intros _ H Hc.
  cbn [forallb] in H; apply andb_prop in H as [Hx Hw].
  apply negb_true_iff in Hx.
  destruct w as [|y w].
  - change ([x] ++ c :: rest) with (x :: c :: rest).
    now rewrite split_cons_cons, Hx, Hc, split_skip_blank.
  - assert (Hy : isspace y = false).
    { cbn [forallb] in Hw; apply andb_prop in Hw as [Hy _].
      now apply negb_true_iff in Hy. }
    change ((x :: y :: w) ++ c :: rest) with (x :: y :: w ++ c :: rest).
    rewrite split_cons_cons, Hx, Hy.
    change (y :: w ++ c :: rest) with ((y :: w) ++ c :: rest).
    rewrite IH; [reflexivity|discriminate|assumption|assumption].
Qed.

Lemma split_last_word (w : str) :
  w <> [] -> no_space w -> split w = [w].
Proof.
  unfold no_space.
  induction w as [|x w IH]; [congruence|]; intros _ H.
  cbn [forallb] in H; apply andb_prop in H as [Hx Hw].
  apply negb_true_iff in Hx.
  destruct w as [|y w].
  - cbn [split]; now rewrite Hx.
  - assert (Hy : isspace y = false).
    { cbn [forallb] in Hw; apply andb_prop in Hw as [Hy _].
      now apply negb_true_iff in Hy. }
    rewrite split_cons_cons, Hx, Hy.
    rewrite IH; [reflexivity|discriminate|assumption].
Qed.

(** The piece before the first separator. *)
Lemma split_on_first (sep : char) (w rest : str) :
  forallb (fun c => negb (c =? sep)) w = true ->
  split_on sep (w ++ sep :: rest) = w :: split_on sep rest.
Proof.
  induction w as [|x w IH]; intros H.
  - cbn [app split_on]; now rewrite N.eqb_refl.
  - cbn [forallb] in H; apply andb_prop in H as [Hx Hw].
    apply negb_true_iff in Hx.
    cbn [app split_on]; now rewrite Hx, (IH Hw).
Qed.

Lemma digit_cases (c : char) :
  is_digit c = true ->
  c = 48 \/ c = 49 \/ c = 50 \/ c = 51 \/ c = 52 \/ c = 53 \/ c = 54
  \/ c = 55 \/ c = 56 \/ c = 57.
Proof.
  unfold is_digit; intros H; apply andb_prop in H as [H1 H2].
  apply N.leb_le in H1, H2; lia.
Qed.

Ltac by_digit_cases H :=
  apply digit_cases in H;
  repeat (destruct H as [H|H]); subst; reflexivity.

Lemma digit_not_space (c : char) : is_digit c = true -> isspace c = false.
Proof. intros H; by_digit_cases H. Qed.

Lemma digit_not_comma (c : char) : is_digit c = true -> (c =? 44) = false.
Proof. intros H; by_digit_cases H. Qed.

Lemma digit_not_linebreak (c : char) :
  is_digit c = true -> is_linebreak c = false.
Proof. intros H; by_digit_cases H. Qed.

Lemma digit_not_underscore (c : char) :
  is_digit c = true -> (c =? 95) = false.
Proof. intros H; by_digit_cases H. Qed.

Lemma digit_decimal_value (c : char) :
  is_digit c = true -> decimal_value c = Some (c - 48).
Proof. unfold decimal_value, is_digit; now intros ->. Qed.

Lemma scan_number_digits (s : str) (acc : Z) (n : N) :
  forallb is_digit s = true ->
  scan_number false acc n s
  = Some (fold_left (fun a c => (10 * a + Z.of_N (c - 48))%Z) s acc,
          n + N.of_nat (length s), []).
Proof.
  revert acc n; induction s as [|c s IH]; intros acc n H.
  - cbn; now rewrite N.add_0_r.
  - cbn [forallb] in H; apply andb_prop in H as [Hc Hs].
    cbn [scan_number fold_left length].
    rewrite (digit_not_underscore _ Hc), (digit_decimal_value _ Hc).
    rewrite (IH _ _ Hs).
    replace (n + 1 + N.of_nat (length s)) with (n + N.of_nat (S (length s)))
      by lia.
    reflexivity.
Qed.

Lemma py_int_numeral (s : str) :
  numeral s -> within_digit_limit s -> py_int s = Ok (numeral_value s).
Proof.
  intros [Hne Hd] Hlim.
  destruct s as [|c s]; [congruence|].
  pose proof Hd as Hd'.
  cbn [forallb] in Hd'; apply andb_prop in Hd' as [Hc Hs].
  assert (Hskip : skip_int_space (c :: s) = c :: s)
    by (clear Hd; by_digit_cases Hc).
  assert (Hus : startswith [95] (c :: s) = false)
    by (clear Hd; by_digit_cases Hc).
  assert (Hsign : read_sign (c :: s) = (false, c :: s))
    by (clear Hd; by_digit_cases Hc).
  unfold py_int; rewrite Hskip.
  rewrite Hsign, Hus, (scan_number_digits _ _ _ Hd).
  replace (0 + N.of_nat (length (c :: s)) =? 0) with false
    by (symmetry; apply N.eqb_neq; cbn [length]; lia).
  unfold within_digit_limit in Hlim; rewrite N.add_0_l, Hlim.
  reflexivity.
Qed.

Lemma numbered_length (n : Z) (ts : list str) :
  length (numbered n ts) = length ts.
Proof.
  revert n; induction ts as [|t ts IH]; intros n; simpl;
    [reflexivity|now rewrite IH].
Qed.

Lemma numbered_nth (n : Z) (ts : list str) (i : nat) (t : str) :
  nth_error ts i = Some t ->
  nth_error (numbered n ts) i = Some ((n + Z.of_nat i)%Z, t).
Proof.
  revert n i; induction ts as [|t0 ts IH]; intros n [|i] H;
    try discriminate.
  - injection H as ->; simpl; now rewrite Z.add_0_r.
  - cbn [numbered nth_error] in *.
    rewrite (IH _ _ H); do 2 f_equal; lia.
Qed.

Lemma numeral_no_space (s : str) :
  forallb is_digit s = true -> no_space s.
Proof.
  unfold no_space; induction s as [|c s IH]; intros H; [reflexivity|].
  cbn [forallb] in *; apply andb_prop in H as [Hc Hs].
  now rewrite (digit_not_space _ Hc), IH.
Qed.

Lemma numeral_no_comma (s : str) :
  forallb is_digit s = true ->
  forallb (fun c => negb (c =? 44)) s = true.
Proof.
  induction s as [|c s IH]; intros H; [reflexivity|].
  cbn [forallb] in *; apply andb_prop in H as [Hc Hs].
  now rewrite (digit_not_comma _ Hc), IH.
Qed.

Lemma numeral_no_linebreak (s : str) :
  forallb is_digit s = true -> no_linebreak s.
Proof.
  unfold no_linebreak; induction s as [|c s IH]; intros H; [reflexivity|].
  cbn [forallb] in *; apply andb_prop in H as [Hc Hs].
  now rewrite (digit_not_linebreak _ Hc), IH.
Qed.

Lemma no_space_app (a b : str) : no_space a -> no_space b -> no_space (a ++ b).
Proof.
  unfold no_space; intros Ha Hb; rewrite forallb_app; now rewrite Ha, Hb.
Qed.

Lemma no_linebreak_app (a b : str) :
  no_linebreak a -> no_linebreak b -> no_linebreak (a ++ b).
Proof.
  unfold no_linebreak; intros Ha Hb; rewrite forallb_app; now rewrite Ha, Hb.
Qed.

Lemma hunk_line_words (A B C D : str) :
  hunk_line A B C D
  = lit "@@" ++ 32 :: (45 :: A ++ 44 :: B)
      ++ 32 :: (43 :: C ++ 44 :: D) ++ 32 :: lit "@@".
Proof.
  unfold hunk_line.
  change (lit "@@ -") with (lit "@@" ++ [32; 45]).
  change (lit " +") with [32; 43].
  change (lit " @@") with (32 :: lit "@@").
  repeat (rewrite <- app_assoc; cbn [app]).
  reflexivity.
Qed.

Lemma hunk_line_split (A B C D : str) :
  numeral A -> numeral B -> numeral C -> numeral D ->
  split (hunk_line A B C D)
  = [lit "@@"; 45 :: A ++ 44 :: B; 43 :: C ++ 44 :: D; lit "@@"].
Proof.
  intros [_ HA] [_ HB] [_ HC] [_ HD].
  assert (Hsig : forall x X Y, forallb is_digit X = true ->
                   forallb is_digit Y = true -> isspace x = false ->
                   no_space (x :: X ++ 44 :: Y)).
  { intros x X Y HX HY Hx.
    change (x :: X ++ 44 :: Y) with ([x] ++ X ++ [44] ++ Y).
    repeat apply no_space_app; try now apply numeral_no_space.
    - unfold no_space; cbn [forallb]; now rewrite Hx.
    - reflexivity. }
  rewrite hunk_line_words.
  rewrite split_word; [|discriminate|reflexivity|reflexivity].
  rewrite split_word;
    [|discriminate|now apply Hsig|reflexivity].
  rewrite split_word;
    [|discriminate|now apply Hsig|reflexivity].
  rewrite split_last_word; [reflexivity|discriminate|reflexivity].
Qed.

Lemma hunk_line_start (A B C D : str) :
  numeral A -> numeral B -> numeral C -> numeral D ->
  within_digit_limit C ->
  hunk_start (hunk_line A B C D) = Some (numeral_value C).
Proof.
  intros HA HB HC HD Hlim.
  unfold hunk_start, hunk_next, hunk_header.
  rewrite (hunk_line_split HA HB HC HD).
  change (find (startswith (lit "+"))
            [lit "@@"; 45 :: A ++ 44 :: B; 43 :: C ++ 44 :: D; lit "@@"])
    with (Some (43 :: C ++ 44 :: D)).
  cbn [truthy].
  change (43 :: C ++ 44 :: D) with ((43 :: C) ++ 44 :: D).
  rewrite split_on_first.
  - unfold index; cbn [nth_error bind].
    change (slice_from 1 (43 :: C)) with C.
    now rewrite (py_int_numeral HC Hlim).
  - cbn [forallb]; destruct HC as [_ HC].
    now rewrite (numeral_no_comma _ HC).
Qed.

(** *** The dictionary *)

Lemma get_setdefault_append (d : dict) (k k' : str) (e : entry) :
  get (setdefault_append d k e) k'
  = if str_eqb k' k then Some (get_or_empty d k ++ [e]) else get d k'.
Proof.
  unfold get_or_empty.
  induction d as [|[k0 v] d IH]; cbn [setdefault_append get].
  - destruct (str_eqb k' k); reflexivity.
  - destruct (str_eqb k k0) eqn:E; cbn [get].
    + apply str_eqb_eq in E; subst k0.
      destruct (str_eqb k' k); reflexivity.
    + rewrite IH.
      destruct (str_eqb k' k0) eqn:E'; [|reflexivity].
      apply str_eqb_eq in E'; subst k0.
      destruct (str_eqb k' k) eqn:E''; [|reflexivity].
      apply str_eqb_eq in E''; subst; rewrite str_eqb_refl in E.
      discriminate.
Qed.

Lemma append_all_single (F : str) (es xs : list entry) :
  fold_left (fun d e => setdefault_append d F e) es (single_file F xs)
  = single_file F (xs ++ es).
Proof.
  revert xs; induction es as [|e es IH]; intros xs.
  - now rewrite app_nil_r.
  - cbn [fold_left].
    replace (setdefault_append (single_file F xs) F e)
      with (single_file F (xs ++ [e])).
    + rewrite IH, <- app_assoc; reflexivity.
    + destruct xs as [|x xs]; cbn [single_file setdefault_append app];
        [reflexivity|now rewrite str_eqb_refl].
Qed.

Lemma added_line_is_added (t : str) :
  startswith (lit "++") t = false -> is_added (43 :: t) = true.
Proof.
  intros H; unfold is_added.
  change (startswith (lit "+") (43 :: t)) with true.
  change (startswith (lit "+++") (43 :: t)) with (startswith (lit "++") t).
  now rewrite H.
Qed.

(** [k] added lines under a set file and counter are numbered
    consecutively and appended to that file's list. *)
Lemma run_added_lines (F : str) (ts : list str) (fc : dict) (n : Z) :
  F <> [] ->
  Forall (fun t => startswith (lit "++") t = false) ts ->
  run (map (cons 43) ts)
      {| file_changes := fc; current_file := Some F;
         current_line := Some n |}
  = {| file_changes :=
         fold_left (fun d e => setdefault_append d F e) (numbered n ts) fc;
       current_file := Some F;
       current_line := Some (n + Z.of_nat (length ts))%Z |}.
Proof.
  intros HF Hts; revert fc n.
  induction Hts as [|t ts Ht _ IH]; intros fc n.
  - cbn; now rewrite Z.add_0_r.
  - cbn [map]; rewrite run_cons, (step_added _ _ (added_line_is_added _ Ht)).
    cbn [current_file current_line file_changes].
    destruct F as [|c F]; [congruence|]; cbn [truthy].
    change (slice_from 1 (43 :: t)) with t.
    rewrite IH; cbn [numbered fold_left length].
    do 2 f_equal; lia.
Qed.

Lemma new_file_path_header (with_b : bool) (F : str) :
  (with_b = false -> startswith (lit "b/") F = false) ->
  new_file_path (file_header_line with_b F) = F.
Proof.
  intros H; unfold new_file_path, file_header_line.
  change (slice_from 4 (lit "+++ " ++ (if with_b then lit "b/" else []) ++ F))
    with ((if with_b then lit "b/" else []) ++ F).
  destruct with_b; [reflexivity|].
  cbn [app]; now rewrite H.
Qed.

Lemma get_single_file (F F' : str) (es : list entry) :
  F' <> F -> get (single_file F es) F' = None.
Proof.
  intros H; destruct es; cbn; [reflexivity|].
  apply str_eqb_neq in H; now rewrite H.
Qed.

Lemma get_or_empty_single_file (F : str) (es : list entry) :
  get_or_empty (single_file F es) F = es.
Proof.
  unfold get_or_empty; destruct es; cbn; [reflexivity|].
  now rewrite str_eqb_refl.
Qed.

Lemma single_hunk_parse (with_b : bool) (F A B C D : str)
      (ts : list str) :
  F <> [] -> no_linebreak F ->
  (with_b = false -> startswith (lit "b/") F = false) ->
  numeral A -> numeral B -> numeral C -> numeral D ->
  within_digit_limit C ->
  Forall no_linebreak ts ->
  Forall (fun t => startswith (lit "++") t = false) ts ->
  parse_diff_content
    (unlines (file_header_line with_b F :: hunk_line A B C D
                :: map (cons 43) ts))
  = Ok (single_file F (numbered (numeral_value C) ts)).
Proof.
  intros HF HFl Hb HA HB HC HD Hlim Hts Hpp.
  rewrite parse_diff_content_run, splitlines_unlines.
  - rewrite run_cons, step_file_header by reflexivity.
    rewrite run_cons, step_hunk_header by reflexivity.
    cbn [file_changes current_file current_line].
    rewrite (hunk_next_valid _ _ (hunk_line_start HA HB HC HD Hlim)).
    rewrite new_file_path_header by exact Hb.
    rewrite run_added_lines by assumption; cbn [file_changes].
    now rewrite (append_all_single F _ []).
  - constructor; [|constructor].
    + unfold file_header_line.
      repeat apply no_linebreak_app; try assumption; try reflexivity.
      now destruct with_b.
    + unfold hunk_line; destruct HA as [_ HA], HB as [_ HB],
        HC as [_ HC], HD as [_ HD].
      repeat apply no_linebreak_app;
        try (now apply numeral_no_linebreak); reflexivity.
    + clear Hpp; induction Hts as [|t ts Ht _ IH]; cbn [map];
        constructor; [|assumption].
      unfold no_linebreak in *; cbn [forallb]; now rewrite Ht.
Qed.

Lemma recorded_snoc (lines : list str) (l : str) (F : str) (e : entry) :
  recorded lines F e -> recorded (lines ++ [l]) F e.
Proof.
  intros (pre & h & mid & post & -> & Hh & Ha & Hf).
  exists pre, h, mid, (post ++ [l]); repeat split; try assumption.
  repeat (rewrite <- app_assoc; cbn [app]); reflexivity.
Qed.

Lemma origin_inv_keep (lines : list str) (l : str) (st st' : parser_state) :
  origin_inv lines st ->
  file_changes st' = file_changes st ->
  (forall n, current_line st' = Some n ->
     current_line st = Some n \/ valid_hunk_header l = true) ->
  origin_inv (lines ++ [l]) st'.
Proof.
  intros [Ha Hb] Hfc Hcur; split.
  - intros n Hn; destruct (Hcur n Hn) as [Hold|Hv].
    + destruct (Ha n Hold) as (pre & h & mid & -> & Hh).
      exists pre, h, (mid ++ [l]); split; [|assumption].
      now rewrite <- app_assoc.
    + exists lines, l, []; now split.
  - rewrite Hfc; intros F es Hes; destruct (Hb F es Hes) as [Hne Hrec].
    split; [assumption|]; intros e He; now apply recorded_snoc, Hrec.
Qed.

Lemma origin_inv_step (lines : list str) (l : str) (st : parser_state) :
  st = run lines initial_state ->
  origin_inv lines st -> origin_inv (lines ++ [l]) (step st l).
Proof.
  intros Hst Hinv.
  destruct (is_file_header l) eqn:Hfh.
  { rewrite step_file_header by assumption.
    apply origin_inv_keep with (st := st); auto. }
  destruct (is_hunk_header l) eqn:Hhh.
  { rewrite step_hunk_header by assumption.
    apply origin_inv_keep with (st := st); auto.
    cbn [current_line]; intros n Hn.
    unfold valid_hunk_header; rewrite Hhh; cbn [andb].
    destruct (hunk_start l) as [c|] eqn:Hs; [now right|left].
    destruct (hunk_next_invalid l (current_line st) Hs) as [E|E];
      rewrite E in Hn; [discriminate|assumption]. }
  destruct (is_added l) eqn:Hadd.
  2:{ rewrite step_other by assumption.
      apply origin_inv_keep with (st := st); auto. }
  rewrite step_added by assumption.
  destruct (current_file st) as [f|] eqn:Hf;
    [|apply origin_inv_keep with (st := st); auto].
  destruct (current_line st) as [n|] eqn:Hn;
    [|apply origin_inv_keep with (st := st); auto].
  destruct (truthy f);
    [|apply origin_inv_keep with (st := st); auto].
  destruct Hinv as [Ha Hb]; split.
  - cbn [current_line]; intros n' _.
    destruct (Ha n Hn) as (pre & h & mid & -> & Hh).
    exists pre, h, (mid ++ [l]); split; [|assumption].
    now rewrite <- app_assoc.
  - cbn [file_changes]; intros F es; rewrite get_setdefault_append.
    destruct (str_eqb F f) eqn:E.
    + apply str_eqb_eq in E; subst F; intros [= <-].
      split; [now destruct (get_or_empty (file_changes st) f)|].
      intros e He; apply in_app_or in He as [He|[<-|[]]].
      * unfold get_or_empty in He.
        destruct (get (file_changes st) f) as [v|] eqn:G; [|contradiction].
        now apply recorded_snoc, (proj2 (Hb f v G)).
      * destruct (Ha n Hn) as (pre & h & mid & Hl & Hh).
        pose proof (added_shape _ Hadd) as Hshape.
        exists pre, h, mid, []; cbn [snd].
        change (match l with [] => [] | _ :: l0 => l0 end)
          with (slice_from 1 l).
        rewrite <- Hshape.
        repeat split; try assumption.
        -- rewrite Hl, <- app_assoc; reflexivity.
        -- now rewrite <- Hf, Hst, Hl.
    + intros G; destruct (Hb F es G) as [Hne Hrec].
      split; [assumption|]; intros e He; now apply recorded_snoc, Hrec.
Qed.

Lemma origin_inv_run (lines : list str) :
  origin_inv lines (run lines initial_state).
Proof.
  induction lines as [|l lines IH] using rev_ind.
  - split; [discriminate|intros F es; discriminate].
  - rewrite run_app; cbn [run fold_left].
    now apply origin_inv_step.
Qed.

(** *** Lines before the first valid hunk header *)

Lemma step_without_counter (st : parser_state) (l : str) :
  current_line st = None -> valid_hunk_header l = false ->
  current_line (step st l) = None
  /\ file_changes (step st l) = file_changes st
  /\ (is_added l = true -> step st l = st).
Proof.
  intros Hn Hv.
  destruct (is_file_header l) eqn:Hfh.
  { rewrite step_file_header by assumption; repeat split; try assumption.
    intros Ha; apply added_not_file_header in Ha; congruence. }
  destruct (is_hunk_header l) eqn:Hhh.
  { rewrite step_hunk_header by assumption.
    unfold valid_hunk_header in Hv; rewrite Hhh in Hv; cbn [andb] in Hv.
    unfold hunk_start in Hv; rewrite Hn.
    repeat split.
    - cbn [current_line]; now destruct (hunk_next l None).
    - intros Ha; apply added_not_hunk_header in Ha; congruence. }
  destruct (is_added l) eqn:Hadd.
  - rewrite step_added by assumption; rewrite Hn.
    now destruct (current_file st).
  - rewrite step_other by assumption; repeat split; auto; discriminate.
Qed.

Lemma run_without_valid_header (lines : list str) (st : parser_state) :
  current_line st = None ->
  Forall (fun l => valid_hunk_header l = false) lines ->
  current_line (run lines st) = None
  /\ file_changes (run lines st) = file_changes st
  /\ run lines st = run (filter (fun l => negb (is_added l)) lines) st.
Proof.
  intros Hn Hall; revert st Hn.
  induction Hall as [|l lines Hl _ IH]; intros st Hn; [now repeat split|].
  destruct (step_without_counter st l Hn Hl) as (Hn' & Hfc & Hdrop).
  destruct (IH _ Hn') as (IH1 & IH2 & IH3).
  rewrite run_cons; repeat split; [assumption|congruence|].
  cbn [filter]; destruct (is_added l) eqn:Ha; cbn [negb].
  - rewrite (Hdrop eq_refl) in *; assumption.
  - rewrite run_cons; assumption.
Qed.

Lemma increasing_snoc (es : list entry) (n : Z) (t : str) :
  increasing es -> below n es -> increasing (es ++ [(n, t)]).
Proof.
  unfold increasing, below.
  induction es as [|e es IH]; cbn [map app]; intros Hs Hb.
  - constructor; constructor.
  - apply StronglySorted_inv in Hs as [Hs He].
    apply Forall_cons_iff in Hb as [Hb1 Hb2].
    constructor; [now apply IH|].
    rewrite map_app; apply Forall_app; split; [assumption|].
    constructor; [assumption|constructor].
Qed.

Lemma below_snoc (es : list entry) (n : Z) (t : str) :
  below n es -> below (n + 1) (es ++ [(n, t)]).
Proof.
  unfold below; intros H; apply Forall_app; split.
  - eapply Forall_impl; [|exact H]; cbv beta; intros; lia.
  - constructor; [cbn; lia|constructor].
Qed.

Lemma below_weaken (es : list entry) (a b : Z) :
  (a <= b)%Z -> below a es -> below b es.
Proof.
  unfold below; intros Hab H.
  eapply Forall_impl; [|exact H]; cbv beta; intros; lia.
Qed.

Lemma existsb_str_eqb (p : str) (seen : list str) :
  In p seen -> existsb (str_eqb p) seen = true.
Proof.
  intros H; apply existsb_exists; exists p; split;
    [assumption|apply str_eqb_refl].
Qed.

Lemma order_inv_file_header (used : list str) (seg : segment)
      (next : option Z) (st : parser_state) (p : str) :
  order_inv used seg next st ->
  order_inv used
    (if truthy p && mem p used then Repeated else Fresh p) next
    {| file_changes := file_changes st; current_file := Some p;
       current_line := current_line st |}.
Proof.
  intros (H1 & H0 & _); split; [exact H1|]; split; [exact H0|].
  destruct (truthy p && mem p used) eqn:E; [exact I|].
  split; [reflexivity|]; cbn [file_changes]; intros Hp es G.
  exfalso; pose proof (proj1 (H1 p es G)) as Hin.
  apply existsb_str_eqb in Hin; unfold mem in E.
  rewrite Hp, Hin in E; discriminate.
Qed.

Lemma order_inv_valid_hunk (used : list str) (seg : segment)
      (next : option Z) (st : parser_state) (c : Z) :
  order_inv used seg next st ->
  match seg, next with
  | Fresh p, Some n => if mem p used then (n <=? c)%Z else true
  | _, _ => true
  end = true ->
  order_inv used seg (Some c)
    {| file_changes := file_changes st; current_file := current_file st;
       current_line := Some c |}.
Proof.
  intros (H1 & H0 & H2) Hc; split; [exact H1|].
  split; [intros n [= <-]; lia|].
  destruct seg as [|p|]; [exact H2| |exact I].
  destruct H2 as [Hf H2]; split; [exact Hf|].
  cbn [file_changes current_line bound]; intros Hp es G.
  exists c; split; [reflexivity|].
  destruct (H2 Hp es G) as (m & -> & Hb).
  pose proof (proj1 (H1 p es G)) as Hin.
  apply existsb_str_eqb in Hin; unfold mem in Hc; rewrite Hin in Hc.
  apply Z.leb_le in Hc.
  apply below_weaken with (a := bound m (current_line st)); [|exact Hb].
  unfold bound; destruct (current_line st) as [n0|];
    [specialize (H0 n0 eq_refl); lia|assumption].
Qed.

Lemma order_inv_counter (used : list str) (seg : segment)
      (next : option Z) (st : parser_state) (cur' : option Z) :
  order_inv used seg next st ->
  cur' = None \/ cur' = current_line st ->
  order_inv used seg next
    {| file_changes := file_changes st; current_file := current_file st;
       current_line := cur' |}.
Proof.
  intros (H1 & H0 & H2) Hcur; split; [exact H1|]; split.
  - destruct next as [m|]; cbn [current_line].
    + intros n Hn; destruct Hcur as [->| ->]; [discriminate|now apply H0].
    + destruct Hcur as [->| ->]; [reflexivity|exact H0].
  - destruct seg as [|p|]; [exact H2| |exact I].
    destruct H2 as [Hf H2]; split; [exact Hf|].
    cbn [file_changes current_line]; intros Hp es G.
    destruct (H2 Hp es G) as (m & -> & Hb); exists m; split; [reflexivity|].
    destruct Hcur as [->| ->]; [|exact Hb].
    apply below_weaken with (a := bound m (current_line st)); [|exact Hb].
    unfold bound; destruct (current_line st) as [n0|];
      [now apply H0|cbn; lia].
Qed.

(** An added line under a fresh, non-empty path with the counter unset:
    nothing is recorded. *)
Lemma order_inv_skip (used : list str) (p : str) (m : Z)
      (st : parser_state) :
  order_inv used (Fresh p) (Some m) st ->
  current_line st = None ->
  order_inv (p :: used) (Fresh p) (Some (m + 1)%Z) st.
Proof.
  intros (H1 & H0 & [Hf H2]) Hn; split; [|split].
  - intros F es G; destruct (H1 F es G) as [HF Hi].
    split; [now right|assumption].
  - intros n Hn'; congruence.
  - split; [exact Hf|]; intros Hp es G.
    destruct (H2 Hp es G) as (m' & Hm & Hb).
    injection Hm as Hm; subst m'.
    exists (m + 1)%Z; split; [reflexivity|].
    rewrite Hn in Hb; cbn [bound] in Hb.
    rewrite Hn; cbn [bound].
    apply below_weaken with (a := m); [lia|exact Hb].
Qed.

Lemma order_inv_added (used : list str) (p : str) (m : Z)
      (st : parser_state) (t : str) (n : Z) :
  order_inv used (Fresh p) (Some m) st ->
  truthy p = true -> current_line st = Some n ->
  order_inv (p :: used) (Fresh p) (Some (m + 1)%Z)
    {| file_changes := setdefault_append (file_changes st) p (n, t);
       current_file := Some p; current_line := Some (n + 1)%Z |}.
Proof.
  intros (H1 & H0 & [Hf H2]) Hp Hn.
  assert (Hold : increasing (get_or_empty (file_changes st) p)
                 /\ below n (get_or_empty (file_changes st) p)).
  { unfold get_or_empty.
    destruct (get (file_changes st) p) as [v|] eqn:G.
    - split; [now apply (H1 p v)|].
      destruct (H2 Hp v eq_refl) as (m' & _ & Hb).
      now rewrite Hn in Hb.
    - split; constructor. }
  destruct Hold as [Hinc Hbel].
  split; [|split]; cbn [file_changes current_file current_line].
  - intros F es G; rewrite get_setdefault_append in G.
    destruct (str_eqb F p) eqn:E.
    + apply str_eqb_eq in E; subst F; injection G as <-.
      split; [now left|now apply increasing_snoc].
    + destruct (H1 F es G) as [HF Hi]; split; [now right|assumption].
  - intros n0 [= <-]; specialize (H0 n Hn); lia.
  - split; [reflexivity|]; intros _ es.
    rewrite get_setdefault_append, str_eqb_refl; intros [= <-].
    exists (m + 1)%Z; split; [reflexivity|].
    cbn [bound]; now apply below_snoc.
Qed.

Lemma order_inv_step (used : list str) (seg : segment) (next : option Z)
      (st : parser_state) (l : str) (ls : list str) :
  order_inv used seg next st ->
  hunks_in_order used seg next (l :: ls) = true ->
  exists used' seg' next',
    order_inv used' seg' next' (step st l)
    /\ hunks_in_order used' seg' next' ls = true.
Proof.
  intros Hinv Hord; cbn [hunks_in_order] in Hord.
  destruct (is_file_header l) eqn:Hfh.
  { rewrite step_file_header by assumption.
    eexists _, _, _; split; [|exact Hord].
    now apply order_inv_file_header with (seg := seg). }
  destruct (is_hunk_header l) eqn:Hhh.
  { rewrite step_hunk_header by assumption.
    destruct (hunk_start l) as [c|] eqn:Hs.
    - apply andb_prop in Hord as [Hc Hord].
      rewrite (hunk_next_valid _ _ Hs).
      eexists _, _, _; split; [|exact Hord].
      now apply order_inv_valid_hunk with (next := next).
    - eexists _, _, _; split; [|exact Hord].
      apply order_inv_counter; [assumption|].
      now apply hunk_next_invalid. }
  destruct (is_added l) eqn:Hadd.
  2:{ rewrite step_other by assumption; eauto. }
  rewrite step_added by assumption.
  destruct seg as [|p|]; [| |discriminate].
  - pose proof Hinv as (_ & _ & H2); rewrite H2.
    eexists _, _, _; split; [exact Hinv|exact Hord].
  - pose proof Hinv as (_ & H0 & [Hf _]); rewrite Hf.
    destruct next as [m|].
    + destruct (truthy p) eqn:Hp.
      * eexists _, _, _; split; [|exact Hord].
        destruct (current_line st) as [n|] eqn:Hn;
          [now apply order_inv_added|now apply order_inv_skip].
      * eexists _, _, _; split; [|exact Hord].
        now destruct (current_line st).
    + rewrite H0; eexists _, _, _; split; [exact Hinv|exact Hord].
Qed.

Lemma hunks_in_order_increasing (ls : list str) (used : list str)
      (seg : segment) (next : option Z) (st : parser_state) :
  order_inv used seg next st ->
  hunks_in_order used seg next ls = true ->
  forall F es, get (file_changes (run ls st)) F = Some es -> increasing es.
Proof.
  revert used seg next st; induction ls as [|l ls IH];
    intros used seg next st Hinv Hord.
  - intros F es G; now apply (proj1 Hinv F es).
  - destruct (@order_inv_step used seg next st l ls Hinv Hord)
      as (used' & seg' & next' & Hinv' & Hord').
    rewrite run_cons; now apply (IH used' seg' next').
Qed.

Lemma order_inv_initial : order_inv [] NoFile None initial_state.
Proof. split; [discriminate|split; reflexivity]. Qed.

Lemma splitlines_cons (c : char) (s : str) :
  splitlines (c :: s) =
  if is_linebreak c then
    [] :: match s with
          | c' :: s'' =>
              if (c =? 13) && (c' =? 10) then splitlines s''
              else splitlines s
          | [] => []
          end
  else
    match splitlines s with
    | [] => [[c]]
    | l :: ls => (c :: l) :: ls
    end.
Proof. reflexivity. Qed.

Lemma splitlines_no_linebreak_aux (s : str) :
  Forall no_linebreak (splitlines s)
  /\ forall c, Forall no_linebreak (splitlines (c :: s)).
Proof.
  induction s as [|c' s IH].
  - split; [constructor|]; intros c; cbn [splitlines].
    destruct (is_linebreak c) eqn:E.
    + constructor; [reflexivity|constructor].
    + constructor; [|constructor].
      unfold no_linebreak; cbn [forallb]; now rewrite E.
  - destruct IH as [IH1 IH2]; split; [apply IH2|]; intros c.
    rewrite (splitlines_cons c (c' :: s)).
    destruct (is_linebreak c) eqn:E.
    + constructor; [reflexivity|].
      destruct ((c =? 13) && (c' =? 10)); [exact IH1|apply IH2].
    + pose proof (IH2 c') as H.
      destruct (splitlines (c' :: s)) as [|l ls].
      * constructor; [|constructor].
        unfold no_linebreak; cbn [forallb]; now rewrite E.
      * apply Forall_cons_iff in H as [Hl Hls]; constructor; [|exact Hls].
        unfold no_linebreak in *; cbn [forallb]; now rewrite E.
Qed.

Lemma splitlines_no_linebreak (s : str) :
  Forall no_linebreak (splitlines s).
Proof. apply splitlines_no_linebreak_aux. Qed.

(** A header whose numeral does not convert clears the counter. *)
Lemma bad_numeral_clears_counter (line m : str) (cur : option Z) :
  find (startswith (lit "+")) (split line) = Some m ->
  py_int (slice_from 1 (hd [] (split_on 44 m))) = Raise ValueError ->
  hunk_header line cur = Ok None.
Proof.
  intros Hm Hint; unfold hunk_header; rewrite Hm.
  assert (Ht : truthy m = true).
  { apply find_some in Hm as [_ Hm].
    now destruct (startswith_first 43 [] m Hm) as [m' ->]. }
  rewrite Ht; unfold index.
  destruct (split_on 44 m) as [|first rest] eqn:E;
    [now apply split_on_not_nil in E|].
  cbn [hd] in Hint; cbn [nth_error bind]; now rewrite Hint.
Qed.

(** ** The claims about the parser *)

(** C9: the diff parser is total.  For every input string it returns a
    dictionary and raises nothing: the step taken at a hunk header, the
    only one that converts an integer or indexes a list, always returns,
    because [ValueError] is caught and the indexed list is never empty. *)
Theorem parse_diff_content_total (diff_text : str) :
  (exists d, parse_diff_content diff_text = Ok d)
  /\ (forall line cur, exists n, hunk_header line cur = Ok n)
  /\ (forall st line, exists st', parse_line st line = Ok st').
Proof.
  split; [|split].
  - rewrite parse_diff_content_run; eauto.
  - apply hunk_header_total.
  - apply parse_line_total.
Qed.

(** C1, amended: for a diff made of the [+++] line of a file [F] (a
    non-empty path; with the prefix [b/], or without it when [F] does not
    itself start with [b/]), one hunk header [@@ -A,B +C,D @@] of four
    numerals, [C] within the digit limit of [int], and then [k] lines
    that start with [+] but not with [+++], where neither [F] nor the
    text of a line holds a line boundary of [str.splitlines] (line feed,
    carriage return, form feed, ...), the parser gives [F], and no other
    file, exactly [k] entries, numbered [C], [C+1], ..., [C+k-1] in
    order, each with the text after the leading [+]. *)
Theorem single_hunk_round_trip (with_b : bool) (F A B C D : str)
        (ts : list str) :
  F <> [] -> no_linebreak F ->
  (with_b = false -> startswith (lit "b/") F = false) ->
  numeral A -> numeral B -> numeral C -> numeral D ->
  within_digit_limit C ->
  Forall no_linebreak ts ->
  Forall (fun t => startswith (lit "++") t = false) ts ->
  round_trip with_b F A B C D ts.
Proof.
  intros HF HFl Hb HA HB HC HD Hlim Hts Hpp.
  exists (single_file F (numbered (numeral_value C) ts)).
  split; [now apply single_hunk_parse|].
  split; [intros F' HF'; now apply get_single_file|].
  rewrite get_or_empty_single_file; split;
    [apply numbered_length|intros i t; apply numbered_nth].
Qed.

(** C2, amended: the parser has an entry for a file [F] only if a valid
    hunk header came, anywhere earlier in the diff, before an added line
    read while [F] was the current file; a diff without any valid hunk
    header yields no entry at all; and the added lines that precede the
    first valid hunk header are dropped: parsing the diff without them
    gives the same result. *)
Theorem entries_follow_valid_hunk_header (diff_text : str) :
  exists d,
    parse_diff_content diff_text = Ok d
    /\ (forall F es, get d F = Some es ->
          es <> []
          /\ forall e, In e es -> recorded (splitlines diff_text) F e)
    /\ (Forall (fun l => valid_hunk_header l = false) (splitlines diff_text)
        -> d = [])
    /\ (forall pre rest,
          splitlines diff_text = pre ++ rest ->
          Forall (fun l => valid_hunk_header l = false) pre ->
          parse_diff_content
            (unlines (filter (fun l => negb (is_added l)) pre ++ rest))
          = Ok d).
Proof.
  exists (file_changes (run (splitlines diff_text) initial_state)).
  split; [apply parse_diff_content_run|].
  split; [apply (proj2 (origin_inv_run (splitlines diff_text)))|].
  split.
  - intros H.
    now destruct (run_without_valid_header initial_state eq_refl H)
      as (_ & -> & _).
  - intros pre rest Hsplit Hpre.
    pose proof (splitlines_no_linebreak diff_text) as Hnl.
    rewrite Hsplit in Hnl; apply Forall_app in Hnl as [Hnl1 Hnl2].
    rewrite parse_diff_content_run, splitlines_unlines.
    + rewrite Hsplit, !run_app.
      now destruct (run_without_valid_header initial_state eq_refl Hpre)
        as (_ & _ & <-).
    + apply Forall_app; split; [|assumption].
      clear - Hnl1; induction Hnl1 as [|l ls Hl _ IH]; cbn [filter];
        [constructor|].
      destruct (negb (is_added l)); [constructor|]; assumption.
Qed.

(** C4, amended: the lines are the pieces [str.splitlines] cuts the text
    into.  When they are in order (no added line under a [+++] header
    whose non-empty path had added lines under an earlier header, and
    under a header whose path has had an added line every valid hunk
    header starting at or after the previous valid start plus the added
    lines since) the line numbers of each file's list are strictly
    increasing.  In every text, each entry is the text of such a piece
    that starts with [+] and not with [+++]; when no line of the diff
    holds a line boundary other than its final line feed, these pieces
    are the lines of the diff, and each entry is the text of an added
    line of the diff. *)
Theorem line_numbers_increase (diff_text : str) :
  exists d,
    parse_diff_content diff_text = Ok d
    /\ (hunks_in_order [] NoFile None (splitlines diff_text) = true ->
        forall F es, get d F = Some es ->
          StronglySorted Z.lt (map fst es))
    /\ (forall F es e, get d F = Some es -> In e es ->
          In (43 :: snd e) (splitlines diff_text)
          /\ is_added (43 :: snd e) = true)
    /\ (forall ls, Forall no_linebreak ls -> diff_text = unlines ls ->
        forall F es e, get d F = Some es -> In e es ->
          In (43 :: snd e) ls /\ is_added (43 :: snd e) = true).
Proof.
  exists (file_changes (run (splitlines diff_text) initial_state)).
  assert (Horigin :
    forall F es e,
      get (file_changes (run (splitlines diff_text) initial_state)) F
      = Some es ->
      In e es ->
      In (43 :: snd e) (splitlines diff_text)
      /\ is_added (43 :: snd e) = true).
  { intros F es e G He.
    destruct (proj2 (origin_inv_run (splitlines diff_text)) F es G)
      as [_ Hrec].
    destruct (Hrec e He) as (pre & h & mid & post & -> & _ & Ha & _).
    split; [|assumption].
    apply in_or_app; right; right; apply in_or_app; right; now left. }
  split; [apply parse_diff_content_run|split; [|split]].
  - intros Hord F es G.
    now apply (@hunks_in_order_increasing (splitlines diff_text) [] NoFile
                 None initial_state order_inv_initial Hord F es).
  - exact Horigin.
  - intros ls Hls E F es e G He.
    pose proof (Horigin F es e G He) as H.
    now rewrite E, splitlines_unlines in H.
Qed.

(** ** The claim about the correlation *)

Lemma fold_left_app_flat_map {A B} (f : A -> list B) (l : list A)
      (acc : list B) :
  fold_left (fun acc x => acc ++ f x) l acc = acc ++ flat_map f l.
Proof.
  revert acc; induction l as [|x l IH]; intros acc; cbn [fold_left flat_map].
  - now rewrite app_nil_r.
  - now rewrite IH, app_assoc.
Qed.

Lemma fold_left_pointwise {A B} (f g : A -> B -> A) (l : list B) (a : A) :
  (forall a x, f a x = g a x) -> fold_left f l a = fold_left g l a.
Proof.
  intros H; revert a; induction l as [|x l IH]; intros a; cbn [fold_left];
    [reflexivity|now rewrite H, IH].
Qed.

Lemma check_word_app (misspelled : list str)
      (dictionary_words : option (list str)) (lineno : Z) (line : str)
      (annotations : list annotation) (word : str) :
  check_word misspelled dictionary_words lineno line annotations word
  = annotations
    ++ (if truthy (filter isalpha word)
           && mem (filter isalpha word) misspelled
           && negb (allow_listed dictionary_words (filter isalpha word))
        then [(lineno, filter isalpha word, strip line)]
        else []).
Proof.
  unfold check_word, allow_listed.
  destruct (truthy (filter isalpha word)
            && mem (filter isalpha word) misspelled);
    cbn [andb]; [|now rewrite app_nil_r].
  destruct dictionary_words as [[|w ws]|]; try reflexivity.
  destruct (mem (filter isalpha word) (w :: ws)); cbn [negb];
    [now rewrite app_nil_r|reflexivity].
Qed.

Lemma correlate_from (misspelled : list str)
      (dictionary_words : option (list str)) (lines : list entry)
      (acc : list annotation) :
  fold_left
    (fun annotations '(lineno, line) =>
       fold_left (check_word misspelled dictionary_words lineno line)
                 (split line) annotations)
    lines acc
  = acc ++ flagged_tokens misspelled dictionary_words lines.
Proof.
  unfold flagged_tokens; revert acc.
  induction lines as [|[lineno line] lines IH]; intros acc;
    cbn [fold_left flat_map]; [now rewrite app_nil_r|].
  rewrite IH, app_assoc; f_equal.
  rewrite <- fold_left_app_flat_map.
  apply fold_left_pointwise; intros acc' word; apply check_word_app.
Qed.

Lemma correlate_flagged_tokens (misspelled : list str)
      (dictionary_words : option (list str)) (lines : list entry) :
  correlate misspelled dictionary_words lines
  = flagged_tokens misspelled dictionary_words lines.
Proof. unfold correlate; now rewrite correlate_from. Qed.

Lemma mem_app (x : str) (a b : list str) :
  mem x (a ++ b) = mem x a || mem x b.
Proof. apply existsb_app. Qed.

Lemma mem_set_add (x y : str) (s : list str) :
  mem x (set_add y s) = str_eqb x y || mem x s.
Proof.
  unfold set_add.
  destruct (mem y s) eqn:E.
  - destruct (str_eqb x y) eqn:E'; [|reflexivity].
    apply str_eqb_eq in E'; subst; now rewrite E.
  - rewrite mem_app; cbn [mem existsb].
    now rewrite orb_false_r, orb_comm.
Qed.

Lemma mem_to_set (x : str) (l : list str) : mem x (to_set l) = mem x l.
Proof.
  unfold to_set.
  assert (H : forall acc,
             mem x (fold_left (fun s y => set_add y s) l acc)
             = mem x acc || mem x l).
  { induction l as [|y l IH]; intros acc; cbn [fold_left].
    - cbn; now rewrite orb_false_r.
    - rewrite IH, mem_set_add; unfold mem; cbn [existsb].
      destruct (str_eqb x y), (existsb (str_eqb x) acc); reflexivity. }
  now rewrite H.
Qed.

Lemma flagged_tokens_ext (m1 m2 : list str)
      (dictionary_words : option (list str)) (lines : list entry) :
  (forall x, mem x m1 = mem x m2) ->
  flagged_tokens m1 dictionary_words lines
  = flagged_tokens m2 dictionary_words lines.
Proof.
  intros H; unfold flagged_tokens.
  apply flat_map_ext; intros [lineno line].
  apply flat_map_ext; intros token; cbv zeta; now rewrite H.
Qed.

Lemma filter_all (A : Type) (f : A -> bool) (l : list A) :
  forallb f (filter f l) = true.
Proof.
  induction l as [|x l IH]; cbn [filter]; [reflexivity|].
  destruct (f x) eqn:E; [cbn [forallb]; now rewrite E|assumption].
Qed.

(** C5: the annotations are exactly the tokens of each text, split on
    whitespace and stripped of non-alphabetic characters, that are
    non-empty, in the checker's flagged set and not in the allow-list, one
    entry per occurrence in line order and, within a line, in token order;
    an allow-listed word is never reported, whatever the checker says. *)
Theorem annotations_are_flagged_tokens (w : world) (is_debug : bool)
        (lines : list entry) (cmd : str)
        (dictionary_words : option (list str)) :
  (forall misspelled,
     correlate misspelled dictionary_words lines
     = flagged_tokens misspelled dictionary_words lines)
  /\ (forall stdout,
        popen_communicate w (split cmd) (join [10] (map snd lines))
        = Some stdout ->
        snd (run_spell_checker w is_debug lines cmd dictionary_words)
        = Ok (flagged_tokens (splitlines (strip stdout)) dictionary_words
                lines))
  /\ (forall misspelled lineno word context,
        In (lineno, word, context)
           (correlate misspelled dictionary_words lines) ->
        allow_listed dictionary_words word = false
        /\ mem word misspelled = true
        /\ word <> []
        /\ forallb isalpha word = true
        /\ exists line token,
             In (lineno, line) lines /\ In token (split line)
             /\ word = filter isalpha token /\ context = strip line).
Proof.
  split; [intros; apply correlate_flagged_tokens|split].
  - intros stdout Hout; unfold run_spell_checker.
    rewrite Hout.
    destruct is_debug;
      unfold when, print, lift, or_raise, io_ret, io_bind; cbn [fst snd];
      rewrite correlate_flagged_tokens;
      now rewrite (@flagged_tokens_ext (to_set (splitlines (strip stdout)))
                     (splitlines (strip stdout)))
        by (intros x; apply mem_to_set).
  - intros misspelled lineno word context.
    rewrite correlate_flagged_tokens; unfold flagged_tokens.
    intros H; apply in_flat_map in H as [[n line] [Hline H]].
    apply in_flat_map in H as [token [Htok H]]; cbv zeta in H.
    destruct (truthy (filter isalpha token)) eqn:E1; [|contradiction].
    destruct (mem (filter isalpha token) misspelled) eqn:E2; [|contradiction].
    destruct (allow_listed dictionary_words (filter isalpha token)) eqn:E3;
      [contradiction|].
    cbn in H; destruct H as [[= <- <- <-]|[]].
    repeat split; try assumption.
    + intros E; rewrite E in E1; discriminate.
    + apply filter_all.
    + exists line, token; repeat split; assumption.
Qed.

(** ** The claim about rendering *)

Lemma io_bind_ok {A B} (out : list str) (a : A) (k : A -> io B) :
  io_bind (out, Ok a) k = (out ++ fst (k a), snd (k a)).
Proof. reflexivity. Qed.

Lemma io_for_each_prints {A} (body : A -> io unit) (g : A -> list str)
      (l : list A) :
  (forall a, body a = (g a, Ok tt)) ->
  io_for_each body l = (flat_map g l, Ok tt).
Proof.
  intros H; induction l as [|x l IH]; cbn [io_for_each flat_map];
    [reflexivity|].
  now rewrite H, IH, io_bind_ok.
Qed.

Lemma flat_map_singleton {A B} (f : A -> B) (l : list A) :
  flat_map (fun a => [f a]) l = map f l.
Proof.
  induction l as [|x l IH]; cbn [flat_map map app]; [reflexivity|].
  now rewrite IH.
Qed.

Lemma emit_console_output_lines (file : str) (annotations : list annotation) :
  emit_console_output file annotations
  = (map (console_line file) annotations, Ok tt).
Proof.
  unfold emit_console_output.
  rewrite (io_for_each_prints _ (fun a => [console_line file a]))
    by reflexivity.
  now rewrite flat_map_singleton.
Qed.

Lemma emit_github_annotations_lines (is_debug : bool) (file : str)
      (annotations : list annotation) :
  emit_github_annotations is_debug file annotations
  = (flat_map (fun a => (if is_debug then [github_trace file a] else [])
                        ++ [github_annotation file a]) annotations,
     Ok tt).
Proof.
  unfold emit_github_annotations.
  apply io_for_each_prints; intros a; now destruct is_debug.
Qed.





(** ** The claim about the input string *)

Lemma utf8_encode_ascii (s : str) :
  forallb (fun c => c <? 128) s = true -> utf8_encode s = Ok s.
Proof.
  induction s as [|c s IH]; intros H; [reflexivity|].
  cbn [forallb] in H; apply andb_prop in H as [Hc Hs].
  cbn [utf8_encode]; unfold utf8_char; rewrite Hc, (IH Hs); reflexivity.
Qed.

Lemma escape_run_plain (bs rest : list N) (out : str) :
  forallb (fun b => negb (b =? 92)) bs = true ->
  escape_run Plain out (bs ++ rest) = escape_run Plain (out ++ bs) rest.
Proof.
  revert out; induction bs as [|b bs IH]; intros out H.
  - now rewrite app_nil_r.
  - cbn [forallb] in H; apply andb_prop in H as [Hb Hbs].
    apply negb_true_iff in Hb.
    cbn [app escape_run escape_step bind]; unfold plain_byte; rewrite Hb.
    cbn [fst snd]; rewrite (IH _ Hbs), <- app_assoc; reflexivity.
Qed.

Lemma plain_ascii_split (s : str) :
  plain_ascii s ->
  forallb (fun c => c <? 128) s = true
  /\ forallb (fun b => negb (b =? 92)) s = true.
Proof.
  unfold plain_ascii; induction s as [|c s IH]; intros H; [now split|].
  cbn [forallb] in *; apply andb_prop in H as [Hc Hs].
  apply andb_prop in Hc as [H1 H2]; destruct (IH Hs) as [IH1 IH2].
  now rewrite H1, H2, IH1, IH2.
Qed.


(** The two characters [\n] of the argument become a line feed. *)
Lemma decode_backslash_n (u v : str) :
  plain_ascii u -> plain_ascii v ->
  decode_input_string (u ++ lit "\n" ++ v) = Ok (u ++ [10] ++ v).
Proof.
  intros Hu Hv.
  apply plain_ascii_split in Hu as [Hu1 Hu2].
  apply plain_ascii_split in Hv as [Hv1 Hv2].
  unfold decode_input_string, unicode_escape_decode.
  rewrite utf8_encode_ascii.
  - cbn [bind]; rewrite (escape_run_plain _ _ [] Hu2).
    change (lit "\n" ++ v) with (92 :: 110 :: v).
    cbn [escape_run escape_step bind plain_byte fst snd app].
    change (escape_run Plain (u ++ [10]) v = Ok (u ++ 10 :: v)).
    pose proof (escape_run_plain v [] (u ++ [10]) Hv2) as E.
    rewrite app_nil_r in E; rewrite E, <- app_assoc; reflexivity.
  - rewrite !forallb_app.
    apply andb_true_intro; split; [exact Hu1|].
    apply andb_true_intro; split; [reflexivity|exact Hv1].
Qed.

Lemma enumerate_from_nth {A} (xs : list A) (k : Z) (i : nat) (x : A) :
  nth_error xs i = Some x ->
  nth_error (map (fun '(i, line) => ((i + 1)%Z, line)) (enumerate_from k xs)) i
  = Some ((k + Z.of_nat i + 1)%Z, x).
Proof.
  revert k i; induction xs as [|y xs IH]; intros k [|i] H; try discriminate.
  - injection H as ->; cbn; now rewrite Z.add_0_r.
  - cbn [enumerate_from map nth_error] in *.
    rewrite (IH _ _ H); do 2 f_equal; lia.
Qed.

Lemma enumerate_from_snd {A} (xs : list A) (k : Z) :
  map snd (map (fun '(i, line) => ((i + 1)%Z, line)) (enumerate_from k xs))
  = xs.
Proof.
  revert k; induction xs as [|y xs IH]; intros k; cbn; [reflexivity|].
  now rewrite IH.
Qed.

(** C10: a non-empty [--input-string] is first decoded (encoded as UTF-8
    and read back with the [unicode_escape] codec; when that raises,
    nothing else is done), and only the decoded text is classified: parsed
    as a unified diff when, left-trimmed, it starts with [diff], else taken
    as the lines of [<stdin>], numbered 1, 2, ... in input order.  The
    decoding turns the two characters [\n] of the argument into a line
    feed. *)
Theorem input_string_decoded_then_classified (w : world) (a : args)
        (is_debug : bool) (includes excludes : list str) (s : str) :
  args_input_string a = Some s -> s <> [] ->
  classified w a is_debug includes excludes s
  /\ forall u v, plain_ascii u -> plain_ascii v ->
       decode_input_string (u ++ lit "\n" ++ v) = Ok (u ++ [10] ++ v).
Proof.
  intros Hs Hne; split; [|apply decode_backslash_n].
  unfold classified, load_changes; rewrite Hs.
  destruct s as [|c s]; [congruence|]; cbn [opt_truthy truthy].
  destruct (decode_input_string (c :: s)) as [text|e]; [|reflexivity].
  unfold lift; rewrite io_bind_ok; cbn [app].
  destruct (startswith (lit "diff") (lstrip text)).
  - rewrite parse_diff_content_run; eexists; split; reflexivity.
  - eexists; split; [reflexivity|split].
    + apply enumerate_from_snd.
    + intros i line H; unfold enumerate.
      pose proof (enumerate_from_nth _ 0 _ H) as E.
      rewrite Z.add_0_l in E; exact E.
Qed.

(** ** The claims about runs of [main] *)

Lemma snd_io_bind {A B} (c : io A) (k : A -> io B) :
  snd (io_bind c k) = bind (snd c) (fun a => snd (k a)).
Proof. destruct c as [out [x|e]]; reflexivity. Qed.

Lemma run_spell_checker_ok (w : world) (is_debug : bool)
      (lines : list entry) (cmd : str)
      (dictionary_words : option (list str)) (stdout : str) :
  popen_communicate w (split cmd) (join [10] (map snd lines)) = Some stdout ->
  run_spell_checker w is_debug lines cmd dictionary_words
  = ((if is_debug then [lit "Aspell cmd '" ++ cmd ++ lit "'"] else []),
     Ok (flagged_tokens (splitlines (strip stdout)) dictionary_words lines)).
Proof.
  intros H; unfold run_spell_checker; rewrite H.
  destruct is_debug;
    unfold when, print, lift, or_raise, io_ret, io_bind; cbn [fst snd app];
    rewrite correlate_flagged_tokens;
    now rewrite (@flagged_tokens_ext (to_set (splitlines (strip stdout)))
                   (splitlines (strip stdout)))
      by (intros x; apply mem_to_set).
Qed.

Lemma run_spell_checker_failed (w : world) (is_debug : bool)
      (lines : list entry) (cmd : str)
      (dictionary_words : option (list str)) :
  popen_communicate w (split cmd) (join [10] (map snd lines)) = None ->
  snd (run_spell_checker w is_debug lines cmd dictionary_words)
  = Raise OSError.
Proof.
  intros H; unfold run_spell_checker; rewrite H.
  destruct is_debug; reflexivity.
Qed.






Lemma lstrip_blank (s : str) : forallb isspace s = true -> lstrip s = [].
Proof.
  induction s as [|c s IH]; intros H; [reflexivity|].
  cbn [forallb] in H; apply andb_prop in H as [Hc Hs].
  cbn [lstrip]; now rewrite Hc, IH.
Qed.



(** *** The exit status *)













Lemma not_exit_ValueError : forall code, ValueError <> SystemExit code.
Proof. discriminate. Qed.











Lemma render_ok (console_output is_debug : bool) (file : str)
      (annotations : list annotation) :
  snd (render console_output is_debug file annotations) = Ok tt.
Proof.
  unfold render; destruct console_output.
  - now rewrite emit_console_output_lines.
  - now rewrite emit_github_annotations_lines.
Qed.

(** The loop over the files: [any_issues] is set exactly when some file
    has an annotation, and only a checker that cannot be started stops
    it. *)
Lemma check_files_from (w : world) (a : args) (file_changes : dict)
      (any_issues : bool) :
  match snd (io_fold
               (fun any_issues '(file, lines) =>
                  io_bind
                    (run_spell_checker w (main_debug w a) lines (args_cmd a)
                       (Some (main_dictionary a)))
                    (fun annotations =>
                       match annotations with
                       | [] => io_ret any_issues
                       | _ :: _ =>
                           io_bind
                             (render (args_console_output a) (main_debug w a)
                                file annotations)
                             (fun _ => io_ret true)
                       end))
               file_changes any_issues) with
  | Ok b =>
      b = any_issues
          || nonempty (flat_map (file_annotations w a) file_changes)
  | Raise e => e = OSError
  end.
Proof.
  revert any_issues; induction file_changes as [|[file lines] fc IH];
    intros any_issues; cbn [io_fold flat_map].
  - cbn; now rewrite orb_false_r.
  - rewrite snd_io_bind, snd_io_bind.
    unfold file_annotations at 1; cbn [snd].
    destruct (popen_communicate w (split (args_cmd a))
                (join [10] (map snd lines))) as [stdout|] eqn:Eout.
    + rewrite (run_spell_checker_ok _ _ _ _ _ Eout); cbn [snd bind].
      destruct (flagged_tokens _ _ lines) as [|x xs].
      * cbn [snd io_ret bind app]; apply IH.
      * rewrite snd_io_bind, render_ok; cbn [bind snd io_ret].
        specialize (IH true).
        destruct (snd (io_fold _ fc true)) as [b|e]; [|exact IH].
        rewrite IH; cbn [app nonempty]; now rewrite orb_true_r.
    + now rewrite (run_spell_checker_failed _ _ _ _ _ Eout).
Qed.

Lemma check_files_result (w : world) (a : args) (file_changes : dict) :
  match snd (check_files w a (main_debug w a) (main_dictionary a)
               file_changes) with
  | Ok b => b = nonempty (flat_map (file_annotations w a) file_changes)
  | Raise e => e = OSError
  end.
Proof. apply (check_files_from w a file_changes false). Qed.

(** The result of [main], by the outcome of its steps. *)
Lemma main_result (w : world) (a : args) :
  snd (main w a)
  = match json_loads w (args_include a), json_loads w (args_exclude a) with
    | Some includes, Some excludes =>
        match snd (load_changes w a (main_debug w a) includes excludes) with
        | Raise e => Raise e
        | Ok None => Ok tt
        | Ok (Some file_changes) =>
            match snd (check_files w a (main_debug w a) (main_dictionary a)
                         file_changes) with
            | Raise e => Raise e
            | Ok true => Raise (SystemExit 1)
            | Ok false => Ok tt
            end
        end
    | _, _ => Raise JSONDecodeError
    end.
Proof.
  unfold main; fold (main_debug w a); fold (main_dictionary a).
  destruct (json_loads w (args_include a)) as [includes|]; [|reflexivity].
  destruct (json_loads w (args_exclude a)) as [excludes|]; [|reflexivity].
  unfold lift, or_raise; rewrite !io_bind_ok; cbn [snd].
  rewrite snd_io_bind.
  destruct (snd (load_changes w a (main_debug w a) includes excludes))
    as [[fc|]|e]; cbn [bind]; try reflexivity.
  rewrite snd_io_bind.
  destruct (snd (check_files w a (main_debug w a) (main_dictionary a) fc))
    as [[|]|e]; reflexivity.
Qed.


(** ** Further properties of the parser *)

Lemma acts_false (l : str) :
  acts l = false ->
  is_file_header l = false /\ is_hunk_header l = false
  /\ is_added l = false.
Proof.
  unfold acts; intros H.
  apply orb_false_iff in H; destruct H as [H H3].
  apply orb_false_iff in H; destruct H as [H1 H2]; auto.
Qed.

Lemma run_filter_acts (ls : list str) (st : parser_state) :
  run (filter acts ls) st = run ls st.
Proof.
  revert st; induction ls as [|l ls IH]; intros st; [reflexivity|].
  cbn [filter]; destruct (acts l) eqn:E.
  - now rewrite !run_cons, IH.
  - apply acts_false in E; destruct E as (E1 & E2 & E3).
    now rewrite run_cons, (step_other st l E1 E2 E3), IH.
Qed.

Lemma Forall_filter {A} (P : A -> Prop) (f : A -> bool) (l : list A) :
  Forall P l -> Forall P (filter f l).
Proof.
  induction 1 as [|x l Hx _ IH]; cbn [filter]; [constructor|].
  destruct (f x); [constructor|]; assumption.
Qed.

(** X1: lines that are neither a [+++] header, nor start with [@@], nor
    are added lines have no effect: the diff without them parses to the
    same dictionary. *)
Theorem unacted_lines_are_ignored (diff_text : str) :
  parse_diff_content (unlines (filter acts (splitlines diff_text)))
  = parse_diff_content diff_text.
Proof.
  rewrite !parse_diff_content_run, splitlines_unlines.
  - now rewrite run_filter_acts.
  - apply Forall_filter, splitlines_no_linebreak.
Qed.

Lemma run_hunk_body (F : str) (block : list str) (fc : dict) (n : Z) :
  F <> [] ->
  Forall (fun l => is_file_header l = false /\ is_hunk_header l = false)
         block ->
  run block {| file_changes := fc; current_file := Some F;
               current_line := Some n |}
  = {| file_changes :=
         fold_left (fun d e => setdefault_append d F e)
                   (numbered n (added_texts block)) fc;
       current_file := Some F;
       current_line := Some (n + Z.of_nat (length (added_texts block)))%Z |}.
Proof.
  intros HF Hb; revert fc n.
  induction Hb as [|l block [H1 H2] _ IH]; intros fc n.
  - cbn; now rewrite Z.add_0_r.
  - rewrite run_cons; unfold added_texts; cbn [filter].
    destruct (is_added l) eqn:E.
    + rewrite (step_added _ _ E).
      cbn [current_file current_line file_changes].
      destruct F as [|c F]; [congruence|]; cbn [truthy].
      rewrite IH; cbn [map numbered fold_left length].
      unfold added_texts; do 2 f_equal; lia.
    + rewrite (step_other _ _ H1 H2 E); apply IH.
Qed.

Lemma run_inert (pre : list str) (st : parser_state) :
  Forall (fun l => acts l = false) pre -> run pre st = st.
Proof.
  induction 1 as [|l pre Hl _ IH]; [reflexivity|].
  apply acts_false in Hl; destruct Hl as (H1 & H2 & H3).
  now rewrite run_cons, (step_other st l H1 H2 H3).
Qed.

(** The dictionary after lines that do not act, a [+++] header, a valid
    hunk header and the lines of one hunk. *)
Lemma single_hunk_run (pre : list str) (hdr h : str) (c : Z)
      (block : list str) :
  Forall (fun l => acts l = false) pre ->
  is_file_header hdr = true -> new_file_path hdr <> [] ->
  is_hunk_header h = true -> hunk_start h = Some c ->
  Forall (fun l => is_file_header l = false /\ is_hunk_header l = false)
         block ->
  file_changes (run (pre ++ hdr :: h :: block) initial_state)
  = single_file (new_file_path hdr) (numbered c (added_texts block)).
Proof.
  intros Hpre Hhdr Hp Hh Hc Hblock.
  rewrite run_app, (@run_inert pre initial_state Hpre).
  rewrite run_cons, step_file_header by assumption.
  rewrite run_cons, step_hunk_header by assumption.
  cbn [file_changes current_file current_line].
  rewrite (hunk_next_valid _ _ Hc).
  rewrite run_hunk_body by assumption; cbn [file_changes].
  now rewrite (append_all_single (new_file_path hdr) _ []).
Qed.

(** X2: inside a hunk only added lines advance the counter.  The lines
    are the pieces [str.splitlines] cuts the text into (the lines of the
    diff, when none of them holds a form feed or another boundary
    character).  When they are lines that do not act, a [+++] header
    with a non-empty path, a valid hunk header that starts at [c], and
    then lines none of which is a [+++] header or starts with [@@], the
    added ones among the latter are numbered [c], [c+1], ... in order,
    whatever context or removed lines stand between them. *)
Theorem only_added_lines_advance_the_counter (diff_text : str)
        (pre : list str) (hdr h : str) (c : Z) (block : list str) :
  splitlines diff_text = pre ++ hdr :: h :: block ->
  Forall (fun l => acts l = false) pre ->
  is_file_header hdr = true -> new_file_path hdr <> [] ->
  is_hunk_header h = true -> hunk_start h = Some c ->
  Forall (fun l => is_file_header l = false /\ is_hunk_header l = false)
         block ->
  parse_diff_content diff_text
  = Ok (single_file (new_file_path hdr) (numbered c (added_texts block))).
Proof.
  intros Hlines Hpre Hhdr Hp Hh Hc Hblock.
  rewrite parse_diff_content_run, Hlines.
  now rewrite (@single_hunk_run pre hdr h c block Hpre Hhdr Hp Hh Hc
                 Hblock).
Qed.

Lemma mem_In (x : str) (s : list str) : mem x s = true <-> In x s.
Proof.
  unfold mem; rewrite existsb_exists; split.
  - intros (y & Hy & E); apply str_eqb_eq in E; now subst.
  - intros H; exists x; split; [assumption|apply str_eqb_refl].
Qed.

Lemma keys_setdefault_append (d : dict) (k : str) (e : entry) :
  keys (setdefault_append d k e)
  = if mem k (keys d) then keys d else keys d ++ [k].
Proof.
  unfold keys, mem.
  induction d as [|[k0 v] d IH]; cbn [setdefault_append map fst existsb];
    [reflexivity|].
  destruct (str_eqb k k0) eqn:E; cbn [map fst orb]; [reflexivity|].
  rewrite IH; now destruct (existsb (str_eqb k) (map fst d)).
Qed.

Lemma NoDup_keys_setdefault_append (d : dict) (k : str) (e : entry) :
  NoDup (keys d) -> NoDup (keys (setdefault_append d k e)).
Proof.
  intros H; rewrite keys_setdefault_append.
  destruct (mem k (keys d)) eqn:E; [assumption|].
  apply NoDup_app;
    [assumption|apply NoDup_cons; [intros []|constructor]|].
  intros a Ha [<-|[]].
  apply mem_In in Ha; congruence.
Qed.

Lemma nonempty_setdefault_append (d : dict) (k : str) (e : entry) :
  k <> [] ->
  Forall (fun kv => fst kv <> [] /\ snd kv <> []) d ->
  Forall (fun kv => fst kv <> [] /\ snd kv <> [])
         (setdefault_append d k e).
Proof.
  intros Hk; induction 1 as [|[k0 v] d [H1 H2] Hd IH];
    cbn [setdefault_append].
  - repeat constructor; [assumption|discriminate].
  - destruct (str_eqb k k0); constructor; try assumption.
    + split; [assumption|]; cbn [snd]; now destruct v.
    + now split.
Qed.

Lemma entry_count_setdefault_append (d : dict) (k : str) (e : entry) :
  entry_count (setdefault_append d k e) = S (entry_count d).
Proof.
  induction d as [|[k0 v] d IH]; cbn [setdefault_append entry_count
                                       fold_right snd length];
    [reflexivity|].
  destruct (str_eqb k k0); cbn [fold_right snd].
  - rewrite length_app; cbn [length]; lia.
  - fold (entry_count (setdefault_append d k e)); rewrite IH.
    fold (entry_count d); lia.
Qed.

(** What a step leaves of the dictionary: the same, or one entry more
    under a non-empty key, the latter at added lines only. *)
Lemma step_file_changes (st : parser_state) (l : str) :
  file_changes (step st l) = file_changes st
  \/ is_added l = true
     /\ exists f e, f <> []
          /\ file_changes (step st l)
             = setdefault_append (file_changes st) f e.
Proof.
  destruct (is_file_header l) eqn:E1.
  { rewrite step_file_header by assumption; now left. }
  destruct (is_hunk_header l) eqn:E2.
  { rewrite step_hunk_header by assumption; now left. }
  destruct (is_added l) eqn:E3.
  - rewrite step_added by assumption.
    destruct (current_file st) as [f|]; [|now left].
    destruct (current_line st) as [n|]; [|now left].
    destruct f as [|c f]; cbn [truthy]; [now left|].
    right; split; [reflexivity|].
    exists (c :: f), (n, slice_from 1 l); split; [discriminate|reflexivity].
  - rewrite step_other by assumption; now left.
Qed.

Lemma run_keeps_keys (ls : list str) (st : parser_state) :
  NoDup (keys (file_changes st)) ->
  Forall (fun kv => fst kv <> [] /\ snd kv <> []) (file_changes st) ->
  NoDup (keys (file_changes (run ls st)))
  /\ Forall (fun kv => fst kv <> [] /\ snd kv <> [])
            (file_changes (run ls st)).
Proof.
  revert st; induction ls as [|l ls IH]; intros st H1 H2; [now split|].
  rewrite run_cons; apply IH.
  - destruct (step_file_changes st l) as [->|(_ & f & e & _ & ->)];
      [assumption|now apply NoDup_keys_setdefault_append].
  - destruct (step_file_changes st l) as [->|(_ & f & e & Hf & ->)];
      [assumption|now apply nonempty_setdefault_append].
Qed.

Lemma get_of_distinct_keys (d : dict) (F : str) (es : list entry) :
  NoDup (keys d) -> In (F, es) d -> get d F = Some es.
Proof.
  unfold keys; induction d as [|[k v] d IH]; intros Hn Hin;
    [destruct Hin|].
  destruct Hin as [H|H].
  - injection H as -> ->; cbn [get]; now rewrite str_eqb_refl.
  - cbn [map fst] in Hn; inversion Hn as [|? ? Hk Hd]; subst.
    cbn [get]; destruct (str_eqb F k) eqn:E; [|now apply IH].
    apply str_eqb_eq in E; subst k.
    exfalso; apply Hk; change F with (fst (F, es)); now apply in_map.
Qed.

(** X3: the dictionary the parser returns has each file once, and no
    file with an empty name or an empty list: a pair of it is what
    [get] returns for its key. *)
Theorem parsed_keys_are_distinct_and_filled (diff_text : str) :
  exists d,
    parse_diff_content diff_text = Ok d
    /\ NoDup (keys d)
    /\ forall F es, In (F, es) d ->
         F <> [] /\ es <> [] /\ get d F = Some es.
Proof.
  rewrite parse_diff_content_run; eexists; split; [reflexivity|].
  destruct (run_keeps_keys (splitlines diff_text) initial_state)
    as [Hn Hf]; [constructor|constructor|].
  split; [assumption|]; intros F es Hin.
  rewrite Forall_forall in Hf; destruct (Hf _ Hin) as [H1 H2].
  repeat split; [assumption|assumption|now apply get_of_distinct_keys].
Qed.

Lemma run_entry_count (ls : list str) (st : parser_state) :
  (entry_count (file_changes (run ls st))
   <= entry_count (file_changes st) + length (filter is_added ls))%nat.
Proof.
  revert st; induction ls as [|l ls IH]; intros st; [cbn; lia|].
  rewrite run_cons; specialize (IH (step st l)); cbn [filter].
  destruct (step_file_changes st l) as [E|(Ha & f & e & _ & E)];
    rewrite E in IH.
  - destruct (is_added l); cbn [length]; lia.
  - rewrite entry_count_setdefault_append in IH.
    rewrite Ha; cbn [length]; lia.
Qed.

(** X4: the parser records at most one entry per added line: the
    entries of all files together are no more than the lines of the diff
    that start with [+] and not with [+++]. *)
Theorem at_most_one_entry_per_added_line (diff_text : str) :
  exists d,
    parse_diff_content diff_text = Ok d
    /\ (entry_count d
        <= length (filter is_added (splitlines diff_text)))%nat.
Proof.
  rewrite parse_diff_content_run; eexists; split; [reflexivity|].
  apply (run_entry_count (splitlines diff_text) initial_state).
Qed.

Lemma splitlines_crlf_line (l rest : str) :
  no_linebreak l ->
  splitlines (l ++ 13 :: 10 :: rest) = l :: splitlines rest.
Proof.
  unfold no_linebreak.
  induction l as [|c l IH]; intros H.
  - reflexivity.
  - cbn [forallb] in H; apply andb_prop in H as [Hc Hl].
    apply negb_true_iff in Hc.
    cbn [app splitlines]; rewrite Hc, (IH Hl); reflexivity.
Qed.

Lemma splitlines_crlf_lines (ls : list str) :
  Forall no_linebreak ls -> splitlines (crlf_lines ls) = ls.
Proof.
  induction 1 as [|l ls Hl _ IH]; [reflexivity|].
  unfold crlf_lines in *; cbn [map concat].
  rewrite <- app_assoc; cbn [app].
  now rewrite splitlines_crlf_line, IH.
Qed.

(** X5: line endings do not matter: a diff whose lines end in carriage
    return and line feed parses to the same dictionary as the diff with
    the same lines ended by a line feed, and no entry keeps a carriage
    return. *)
Theorem crlf_diff_parses_alike (ls : list str) :
  Forall no_linebreak ls ->
  parse_diff_content (crlf_lines ls) = parse_diff_content (unlines ls).
Proof.
  intros H.
  now rewrite !parse_diff_content_run, splitlines_crlf_lines,
    splitlines_unlines.
Qed.

Lemma run_under_empty_path (block : list str) (fc : dict)
      (cur : option Z) :
  Forall (fun l => is_file_header l = false) block ->
  file_changes
    (run block {| file_changes := fc; current_file := Some [];
                  current_line := cur |}) = fc.
Proof.
  intros Hb; revert cur.
  induction Hb as [|l block H1 _ IH]; intros cur; [reflexivity|].
  rewrite run_cons.
  destruct (is_hunk_header l) eqn:E2.
  { rewrite step_hunk_header by assumption; apply IH. }
  destruct (is_added l) eqn:E3.
  - rewrite step_added by assumption.
    cbn [current_file current_line truthy].
    destruct cur; apply IH.
  - rewrite step_other by assumption; apply IH.
Qed.

(** X6: a [+++] header that names the empty path (as [+++ b/] does)
    switches recording off: whatever follows it up to the next [+++]
    header, hunk headers and added lines included, adds nothing to the
    dictionary. *)
Theorem empty_path_header_records_nothing (pre : list str) (hdr : str)
        (block : list str) :
  Forall no_linebreak pre -> no_linebreak hdr -> Forall no_linebreak block ->
  is_file_header hdr = true -> new_file_path hdr = [] ->
  Forall (fun l => is_file_header l = false) block ->
  parse_diff_content (unlines (pre ++ hdr :: block))
  = parse_diff_content (unlines pre).
Proof.
  intros Hpre Hhdr Hblock Hh Hp Hb.
  rewrite !parse_diff_content_run, !splitlines_unlines; try assumption.
  - rewrite run_app, run_cons, step_file_header by assumption.
    rewrite Hp; now rewrite run_under_empty_path.
  - apply Forall_app; split; [assumption|now constructor].
Qed.

(** *** Numbers as git prints them *)

Lemma lit_String (c : Ascii.ascii) (s : String.string) :
  lit (String.String c s) = Ascii.N_of_ascii c :: lit s.
Proof. reflexivity. Qed.

Lemma printed_digits (d : Decimal.uint) :
  forallb is_digit (lit (NilEmpty.string_of_uint d)) = true.
Proof.
  induction d; cbn [NilEmpty.string_of_uint]; rewrite ?lit_String;
    [reflexivity|..]; cbn [forallb]; now rewrite IHd.
Qed.

Lemma printed_value_from (d : Decimal.uint) (acc : positive) :
  fold_left (fun a c => (10 * a + Z.of_N (c - 48))%Z)
            (lit (NilEmpty.string_of_uint d)) (Z.pos acc)
  = Z.pos (Pos.of_uint_acc d acc).
Proof.
  revert acc; induction d; intros acc;
    cbn [NilEmpty.string_of_uint Pos.of_uint_acc]; rewrite ?lit_String;
    [reflexivity|..]; cbn [fold_left]; rewrite <- IHd; f_equal;
    vm_compute (Ascii.N_of_ascii _ - 48); lia.
Qed.

Lemma printed_value (d : Decimal.uint) :
  numeral_value (lit (NilEmpty.string_of_uint d)) = Z.of_N (Pos.of_uint d).
Proof.
  unfold numeral_value.
  induction d; cbn [NilEmpty.string_of_uint Pos.of_uint];
    rewrite ?lit_String; [reflexivity|..]; cbn [fold_left];
    [exact IHd|..]; apply printed_value_from.
Qed.

(** [str(n)] of a natural number is its numeral. *)
Lemma of_Z_numeral (n : Z) :
  (0 <= n)%Z -> numeral (of_Z n) /\ numeral_value (of_Z n) = n.
Proof.
  intros Hn; destruct n as [|p|p]; [now split| |lia].
  unfold of_Z; cbn [Z.to_int NilZero.string_of_int].
  assert (E : NilZero.string_of_uint (Pos.to_uint p)
              = NilEmpty.string_of_uint (Pos.to_uint p)).
  { pose proof (DecimalPos.Unsigned.to_uint_nonnil p) as Hp.
    now destruct (Pos.to_uint p). }
  rewrite E; split; [split|].
  - pose proof (DecimalPos.Unsigned.to_uint_nonnil p) as Hp.
    destruct (Pos.to_uint p); [congruence|..]; discriminate.
  - apply printed_digits.
  - now rewrite printed_value, DecimalPos.Unsigned.of_to.
Qed.

(** X7: the hunk header git prints for a hunk that starts at line [c]
    of the new file, with the four numbers in decimal as [str] renders
    them, sets the counter to [c], whatever it was. *)
Theorem printed_hunk_header_sets_counter (a b c d : Z)
        (cur : option Z) :
  (0 <= a)%Z -> (0 <= b)%Z -> (0 <= c)%Z -> (0 <= d)%Z ->
  within_digit_limit (of_Z c) ->
  hunk_header (hunk_line (of_Z a) (of_Z b) (of_Z c) (of_Z d)) cur
  = Ok (Some c).
Proof.
  intros Ha Hb Hc Hd Hlim.
  destruct (of_Z_numeral Ha) as [HA _], (of_Z_numeral Hb) as [HB _],
    (of_Z_numeral Hc) as [HC EC], (of_Z_numeral Hd) as [HD _].
  pose proof (hunk_next_valid _ cur (hunk_line_start HA HB HC HD Hlim)) as E.
  unfold hunk_next in E.
  destruct (hunk_header_total
              (hunk_line (of_Z a) (of_Z b) (of_Z c) (of_Z d)) cur) as [n Hn].
  rewrite Hn in E |- *; now rewrite E, EC.
Qed.

(** ** Further properties of the path filter *)

Lemma In_set_add (x y : str) (s : list str) :
  In x (set_add y s) <-> x = y \/ In x s.
Proof.
  now rewrite <- !mem_In, mem_set_add, orb_true_iff, str_eqb_eq.
Qed.

Lemma NoDup_set_add (y : str) (s : list str) :
  NoDup s -> NoDup (set_add y s).
Proof.
  intros H; unfold set_add; destruct (mem y s) eqn:E; [assumption|].
  apply NoDup_app; [assumption|apply NoDup_cons; [intros []|constructor]|].
  intros a Ha [<-|[]]; apply mem_In in Ha; congruence.
Qed.

Lemma In_to_set (x : str) (l : list str) : In x (to_set l) <-> In x l.
Proof. now rewrite <- !mem_In, mem_to_set. Qed.

Lemma NoDup_fold_set_add (l s : list str) :
  NoDup s -> NoDup (fold_left (fun s x => set_add x s) l s).
Proof.
  revert s; induction l as [|x l IH]; intros s H; [assumption|].
  cbn [fold_left]; now apply IH, NoDup_set_add.
Qed.

Lemma NoDup_to_set (l : list str) : NoDup (to_set l).
Proof. apply NoDup_fold_set_add; constructor. Qed.

(** The inner loop of [glob_relative]: the paths one pattern adds, or
    the exception of the first path that cannot be resolved. *)
Lemma glob_paths_added (w : world) (globbed paths : list str) :
  NoDup paths ->
  match for_each
          (fun paths path =>
             try_except_ValueError
               (rel <- resolved (relative_to_root w path) ;;
                Ok (set_add rel paths))
               (Ok paths))
          globbed paths with
  | Ok paths' =>
      NoDup paths'
      /\ forall f, In f paths'
           <-> In f paths
               \/ exists path, In path globbed
                               /\ relative_to_root w path = Inside f
  | Raise e =>
      e <> ValueError
      /\ exists path, In path globbed
                      /\ resolved (relative_to_root w path) = Raise e
  end.
Proof.
  revert paths; induction globbed as [|p globbed IH]; intros paths Hn.
  - cbn [for_each]; split; [assumption|].
    intros f; split; [now left|]; intros [H|(path & [] & _)]; assumption.
  - cbn [for_each].
    destruct (relative_to_root w p) as [rel| | |] eqn:E;
      cbn [resolved bind try_except_ValueError].
    + specialize (IH (set_add rel paths) (NoDup_set_add rel Hn)).
      destruct (for_each _ globbed (set_add rel paths)) as [paths'|e].
      * destruct IH as [Hn' Hin]; split; [assumption|].
        intros f; rewrite Hin, In_set_add; split.
        -- intros [[->|H]|(path & H1 & H2)]; [right|now left|right].
           ++ exists p; split; [now left|assumption].
           ++ exists path; split; [now right|assumption].
        -- intros [H|(path & [<-|H1] & H2)]; [left; now right| |right].
           ++ left; left; congruence.
           ++ now exists path.
      * destruct IH as [He (path & H1 & H2)]; split; [assumption|].
        exists path; split; [now right|assumption].
    + specialize (IH paths Hn).
      destruct (for_each _ globbed paths) as [paths'|e].
      * destruct IH as [Hn' Hin]; split; [assumption|].
        intros f; rewrite Hin; split.
        -- intros [H|(path & H1 & H2)]; [now left|right].
           exists path; split; [now right|assumption].
        -- intros [H|(path & [<-|H1] & H2)]; [now left|congruence|right].
           now exists path.
      * destruct IH as [He (path & H1 & H2)]; split; [assumption|].
        exists path; split; [now right|assumption].
    + split; [discriminate|].
      exists p; split; [now left|now rewrite E].
    + split; [discriminate|].
      exists p; split; [now left|now rewrite E].
Qed.

Lemma glob_relative_from (w : world) (patterns paths : list str) :
  NoDup paths ->
  match for_each
          (fun paths pattern =>
             for_each
               (fun paths path =>
                  try_except_ValueError
                    (rel <- resolved (relative_to_root w path) ;;
                     Ok (set_add rel paths))
                    (Ok paths))
               (glob_glob w pattern) paths)
          patterns paths with
  | Ok paths' =>
      NoDup paths'
      /\ forall f, In f paths' <-> In f paths \/ matched w patterns f
  | Raise e => unresolved w patterns e
  end.
Proof.
  revert paths; induction patterns as [|p patterns IH]; intros paths Hn.
  - cbn [for_each]; split; [assumption|].
    intros f; split; [now left|].
    intros [H|(pattern & path & [] & _)]; assumption.
  - cbn [for_each].
    pose proof (glob_paths_added w (glob_glob w p) Hn) as H1.
    destruct (for_each _ (glob_glob w p) paths) as [paths1|e]; cbn [bind].
    + destruct H1 as [Hn1 Hin1]; specialize (IH paths1 Hn1).
      destruct (for_each _ patterns paths1) as [paths'|e].
      * destruct IH as [Hn' Hin]; split; [assumption|].
        intros f; rewrite Hin, Hin1; unfold matched; split.
        -- intros [[H|(path & H1 & H2)]|(pattern & path & H1 & H2 & H3)].
           ++ now left.
           ++ right; exists p, path; repeat split;
                [now left|assumption..].
           ++ right; exists pattern, path; repeat split;
                [now right|assumption..].
        -- intros [H|(pattern & path & [<-|H1] & H2 & H3)].
           ++ left; now left.
           ++ left; right; now exists path.
           ++ right; exists pattern, path; repeat split; assumption.
      * destruct IH as (pattern & path & H1 & H2 & H3 & H4).
        exists pattern, path; repeat split; [now right|assumption..].
    + destruct H1 as [He (path & H1 & H2)].
      exists p, path; repeat split; [now left|assumption..].
Qed.

(** X8: [glob_relative] skips a path outside the root and raises only
    when [resolve] fails on a path that some pattern matches, with the
    exception of that failure, never with the [ValueError] it catches.
    When it returns, it returns, without repetition, exactly the
    root-relative forms of the paths that some pattern matches. *)
Theorem glob_relative_collects_matches (w : world) (patterns : list str) :
  match glob_relative w patterns with
  | Ok paths =>
      NoDup paths /\ forall f, In f paths <-> matched w patterns f
  | Raise e => unresolved w patterns e
  end.
Proof.
  pose proof (@glob_relative_from w patterns [] (NoDup_nil _)) as H.
  unfold glob_relative.
  destruct (for_each _ patterns []) as [paths|e]; [|exact H].
  destruct H as [Hn Hin]; split; [assumption|].
  intros f; rewrite Hin; split; [intros [[]|H]; exact H|now right].
Qed.

Lemma str_ltb_trans (a b c : str) :
  str_ltb a b = true -> str_ltb b c = true -> str_ltb a c = true.
Proof.
  revert b c; induction a as [|x a IH]; intros [|y b] [|z c];
    cbn [str_ltb]; try discriminate; try reflexivity.
  rewrite !orb_true_iff, !andb_true_iff, !N.ltb_lt, !N.eqb_eq.
  intros [H1|[H1 H1']] [H2|[H2 H2']].
  - left; lia.
  - left; lia.
  - left; lia.
  - right; split; [lia|eapply IH; eassumption].
Qed.

Lemma str_ltb_total (a b : str) :
  str_ltb a b = false -> a <> b -> str_ltb b a = true.
Proof.
  revert b; induction a as [|x a IH]; intros [|y b];
    cbn [str_ltb]; try discriminate; try reflexivity; [congruence|].
  rewrite orb_false_iff, andb_false_iff, orb_true_iff, andb_true_iff,
    !N.ltb_lt, N.ltb_ge, N.eqb_eq, N.eqb_neq.
  intros [H1 H2] Hne.
  destruct (N.eq_dec x y) as [->|Hxy]; [right|left; lia].
  split; [reflexivity|]; destruct H2 as [H2|H2]; [congruence|].
  apply IH; [assumption|congruence].
Qed.

Lemma In_insert_sorted (x y : str) (l : list str) :
  In x (insert_sorted y l) <-> x = y \/ In x l.
Proof.
  induction l as [|z l IH]; cbn [insert_sorted].
  - cbn [In]; split; (intros [H|H]; [left; congruence|now right]).
  - destruct (str_ltb y z); cbn [In].
    + split; (intros [H|H]; [left; congruence|now right]).
    + rewrite IH; split.
      * intros [H|[H|H]]; [right; now left|now left|right; now right].
      * intros [H|[H|H]]; [right; now left|now left|right; now right].
Qed.

Lemma In_sorted (x : str) (s : list str) : In x (sorted s) <-> In x s.
Proof.
  unfold sorted; induction s as [|y s IH]; cbn [fold_right];
    [reflexivity|].
  rewrite In_insert_sorted, IH; cbn [In]; split;
    (intros [H|H]; [left; congruence|now right]).
Qed.

Lemma insert_sorted_ascending (x : str) (l : list str) :
  StronglySorted str_lt l -> ~ In x l ->
  StronglySorted str_lt (insert_sorted x l).
Proof.
  induction 1 as [|y l Hl IH Hy]; intros Hx; cbn [insert_sorted].
  - repeat constructor.
  - destruct (str_ltb x y) eqn:E.
    + constructor; [now constructor|].
      constructor; [exact E|].
      rewrite Forall_forall in Hy |- *; intros z Hz.
      exact (str_ltb_trans _ _ _ E (Hy z Hz)).
    + assert (Hyx : str_lt y x).
      { apply str_ltb_total; [assumption|].
        intros ->; apply Hx; now left. }
      constructor.
      * apply IH; intros H; apply Hx; now right.
      * rewrite Forall_forall in Hy |- *; intros z Hz.
        apply In_insert_sorted in Hz; destruct Hz as [->|Hz];
          [assumption|now apply Hy].
Qed.

Lemma sorted_ascending (s : list str) :
  NoDup s -> StronglySorted str_lt (sorted s).
Proof.
  unfold sorted; induction 1 as [|x s Hx _ IH]; cbn [fold_right];
    [constructor|].
  apply insert_sorted_ascending; [assumption|].
  fold (sorted s); now rewrite In_sorted.
Qed.

Lemma str_ltb_irrefl (a : str) : str_ltb a a = false.
Proof.
  induction a as [|x a IH]; cbn [str_ltb]; [reflexivity|].
  now rewrite N.ltb_irrefl, N.eqb_refl, IH.
Qed.

Lemma ascending_NoDup (l : list str) : StronglySorted str_lt l -> NoDup l.
Proof.
  induction 1 as [|x l _ IH Hx]; constructor; [|assumption].
  intros Hin; rewrite Forall_forall in Hx; specialize (Hx x Hin).
  unfold str_lt in Hx; now rewrite str_ltb_irrefl in Hx.
Qed.

(** What [get_diff_files] returns, when it returns: the sorted
    difference of the sets it builds from git's answer and the globs. *)
Lemma get_diff_files_value (w : world) (is_debug : bool)
      (base_branch : str) (includes excludes files : list str) :
  snd (get_diff_files w is_debug base_branch includes excludes) = Ok files ->
  exists rc stdout included excluded,
    subprocess_run w (name_only_cmd base_branch) = Some (rc, stdout)
    /\ glob_relative w includes = Ok included
    /\ glob_relative w excludes = Ok excluded
    /\ files
       = sorted (set_diff
                   (set_inter (to_set (splitlines (strip stdout))) included)
                   excluded).
Proof.
  unfold get_diff_files, is_detached_head, name_only_cmd.
  rewrite ?snd_io_bind.
  destruct (subprocess_run w
              [lit "git"; lit "symbolic-ref"; lit "--quiet"; lit "HEAD"])
    as [[rc0 out0]|]; cbn [lift or_raise snd bind fst io_ret];
    [|discriminate].
  rewrite ?snd_io_bind.
  assert (Hfetch :
    forall r,
      snd (when (negb (rc0 =? 0)%Z)
             (io_bind
                (when is_debug
                   (print (lit "Detached HEAD detected. Fetching '"
                           ++ base_branch ++ lit "'...")))
                (fun _ =>
                   io_bind
                     (lift (or_raise OSError
                              (subprocess_run w
                                 [lit "git"; lit "fetch"; lit "origin";
                                  base_branch])))
                     (fun _ => io_ret tt)))) = r ->
      r = Ok tt \/ r = Raise OSError).
  { intros r <-; destruct (negb (rc0 =? 0)%Z); [|now left].
    destruct is_debug;
      destruct (subprocess_run w
                  [lit "git"; lit "fetch"; lit "origin"; base_branch]);
      cbn; auto. }
  destruct (Hfetch _ eq_refl) as [->| ->]; cbn [bind]; [|discriminate].
  rewrite ?snd_io_bind.
  replace (snd (when is_debug
                  (print (lit "git diff cmd: '"
                          ++ format_list w
                               [lit "git"; lit "diff"; lit "--name-only";
                                lit "origin/" ++ base_branch]
                          ++ lit "'")))) with (Ok tt)
    by (now destruct is_debug).
  cbn [bind]; rewrite ?snd_io_bind.
  destruct (subprocess_run w
              [lit "git"; lit "diff"; lit "--name-only";
               lit "origin/" ++ base_branch])
    as [[rc out]|]; cbn [lift or_raise snd bind]; [|discriminate].
  rewrite ?snd_io_bind.
  match goal with
  | |- context [snd (when is_debug ?c)] =>
      replace (snd (when is_debug c)) with (Ok tt)
        by (now destruct is_debug)
  end.
  cbn [bind]; rewrite ?snd_io_bind; cbn [lift snd].
  destruct (glob_relative w includes) as [included|]; cbn [bind];
    [|discriminate].
  rewrite ?snd_io_bind; cbn [lift snd].
  destruct (glob_relative w excludes) as [excluded|]; cbn [bind];
    [|discriminate].
  rewrite ?snd_io_bind.
  match goal with
  | |- context [snd (when is_debug ?c)] =>
      replace (snd (when is_debug c)) with (Ok tt)
        by (now destruct is_debug)
  end.
  cbn [bind io_ret snd]; intros [= <-].
  exists rc, out, included, excluded; repeat split.
Qed.

Lemma glob_relative_In (w : world) (patterns paths : list str) :
  glob_relative w patterns = Ok paths ->
  forall f, In f paths <-> matched w patterns f.
Proof.
  intros E f.
  pose proof (@glob_relative_from w patterns [] (NoDup_nil _)) as H.
  unfold glob_relative in E; rewrite E in H; destruct H as [_ Hin].
  rewrite Hin; split; [intros [[]|H]; exact H|now right].
Qed.

(** X9: the files [get_diff_files] returns are in strictly ascending
    order, so none is repeated, and they are exactly the lines of the
    output of [git diff --name-only] (whatever its return code) that an
    include pattern matches and no exclude pattern does. *)
Theorem get_diff_files_sorted_and_filtered (w : world) (is_debug : bool)
        (base_branch : str) (includes excludes files : list str) :
  snd (get_diff_files w is_debug base_branch includes excludes) = Ok files ->
  exists rc stdout,
    subprocess_run w (name_only_cmd base_branch) = Some (rc, stdout)
    /\ StronglySorted str_lt files
    /\ forall f, In f files
         <-> In f (splitlines (strip stdout))
             /\ matched w includes f /\ ~ matched w excludes f.
Proof.
  intros H; apply get_diff_files_value in H.
  destruct H as (rc & stdout & included & excluded & Hrun & Hi & He & ->).
  exists rc, stdout; split; [assumption|]; split.
  - apply sorted_ascending; unfold set_diff, set_inter.
    do 2 apply NoDup_filter; apply NoDup_to_set.
  - intros f; rewrite In_sorted; unfold set_diff, set_inter.
    rewrite !filter_In, In_to_set, negb_true_iff.
    rewrite <- (@glob_relative_In _ _ _ Hi f),
      <- (@glob_relative_In _ _ _ He f).
    rewrite <- !mem_In.
    destruct (mem f excluded); split.
    + intros [_ H]; discriminate.
    + intros (_ & _ & H); now destruct H.
    + intros [[H1 H2] _]; repeat split; [assumption..|discriminate].
    + intros (H1 & H2 & _); repeat split; assumption.
Qed.

(** ** Further properties of the git mode *)

Lemma dict_set_fresh (d : dict) (f : str) (v : list entry) :
  ~ In f (keys d) -> dict_set d f v = d ++ [(f, v)].
Proof.
  unfold keys; induction d as [|[k v'] d IH]; intros H; [reflexivity|].
  cbn [dict_set app]; cbn [map fst In] in H.
  destruct (str_eqb f k) eqn:E.
  - apply str_eqb_eq in E; subst; exfalso; apply H; now left.
  - rewrite IH; [reflexivity|]; intros Hin; apply H; now right.
Qed.

Lemma git_changes_fold (w : world) (is_debug : bool) (base_branch : str)
      (files : list str) (L : str -> list entry) (acc : dict) :
  NoDup (keys acc ++ files) ->
  (forall f, In f files ->
     snd (get_diff_lines w is_debug f base_branch) = Ok (L f)) ->
  snd (io_fold
         (fun d f =>
            io_bind (get_diff_lines w is_debug f base_branch)
                    (fun lines => io_ret (dict_set d f lines)))
         files acc)
  = Ok (acc ++ map (fun f => (f, L f)) files).
Proof.
  revert acc; induction files as [|f files IH]; intros acc Hn HL.
  - cbn; now rewrite app_nil_r.
  - cbn [io_fold]; rewrite !snd_io_bind, (HL f (or_introl eq_refl)).
    cbn [bind io_ret snd].
    rewrite dict_set_fresh.
    + rewrite IH.
      * now rewrite <- app_assoc.
      * unfold keys in *; rewrite map_app, <- app_assoc; exact Hn.
      * intros g Hg; apply HL; now right.
    + apply NoDup_remove_2 in Hn; intros Hin; apply Hn, in_or_app.
      now left.
Qed.

(** X10: without an input string and a diff file, the dictionary that
    [main] checks has one key for each file [get_diff_files] returned,
    in that ascending order, each with what [get_diff_lines] returned
    for it; with no file left there is nothing to check. *)
Theorem git_mode_checks_files_in_order (w : world) (a : args)
        (is_debug : bool) (includes excludes files : list str)
        (L : str -> list entry) :
  opt_truthy (args_input_string a) = false ->
  opt_truthy (args_diff_file a) = false ->
  snd (get_diff_files w is_debug (args_base_branch a) includes excludes)
  = Ok files ->
  (forall f, In f files ->
     snd (get_diff_lines w is_debug f (args_base_branch a)) = Ok (L f)) ->
  StronglySorted str_lt files
  /\ snd (load_changes w a is_debug includes excludes)
     = Ok (match files with
           | [] => None
           | _ :: _ => Some (map (fun f => (f, L f)) files)
           end).
Proof.
  intros Hs Hd Hfiles HL.
  assert (Hsorted : StronglySorted str_lt files).
  { apply get_diff_files_value in Hfiles.
    destruct Hfiles as (rc & stdout & included & excluded & _ & _ & _ & ->).
    apply sorted_ascending; unfold set_diff, set_inter.
    do 2 apply NoDup_filter; apply NoDup_to_set. }
  split; [assumption|].
  unfold load_changes; rewrite Hs, Hd, snd_io_bind, Hfiles; cbn [bind].
  destruct files as [|f files]; [reflexivity|].
  rewrite snd_io_bind, (@git_changes_fold w is_debug (args_base_branch a)
                          (f :: files) L []).
  - reflexivity.
  - now apply ascending_NoDup.
  - exact HL.
Qed.

(** ** Further properties of the input string *)

Lemma utf8_char_bytes (c : char) :
  (c =? 92) = false ->
  match utf8_char c with
  | Ok bs => backslash_free bs
  | Raise _ => True
  end.
Proof.
  unfold utf8_char, backslash_free; intros Hc.
  destruct (c <? 128); [cbn [forallb]; now rewrite Hc|].
  destruct (c <? 2048);
    [|destruct (c <? 65536);
      [destruct ((55296 <=? c) && (c <=? 57343)); [exact I|]
      |destruct (c <? 1114112); [|exact I]]];
    cbn [forallb]; rewrite ?andb_true_iff;
    repeat split; apply negb_true_iff, N.eqb_neq;
    match goal with
    | |- _ + ?x <> 92 => generalize x; intros; lia
    end.
Qed.

Lemma utf8_char_backslash_free (c : char) (bs : list N) :
  (c =? 92) = false -> utf8_char c = Ok bs -> backslash_free bs.
Proof.
  intros Hc E; pose proof (utf8_char_bytes c Hc) as H.
  now rewrite E in H.
Qed.

Lemma utf8_encode_backslash_free (s : str) (bs : list N) :
  backslash_free s -> utf8_encode s = Ok bs -> backslash_free bs.
Proof.
  unfold backslash_free; revert bs.
  induction s as [|c s IH]; intros bs H; cbn [utf8_encode].
  - now intros [= <-].
  - cbn [forallb] in H; apply andb_prop in H as [Hc Hs].
    apply negb_true_iff in Hc.
    destruct (utf8_char c) as [b|] eqn:Eb; cbn [bind]; [|discriminate].
    destruct (utf8_encode s) as [bs'|] eqn:Es; cbn [bind]; [|discriminate].
    intros [= <-]; rewrite forallb_app.
    rewrite (utf8_char_backslash_free _ Hc Eb), (IH bs' Hs eq_refl).
    reflexivity.
Qed.

(** X11: an input string without a backslash is decoded to its UTF-8
    bytes, each read as one character: ASCII text stays as it is, any
    other character becomes two to four characters, and a lone surrogate
    raises [UnicodeEncodeError]. *)
Theorem backslash_free_input_becomes_utf8_bytes (s : str) :
  backslash_free s -> decode_input_string s = utf8_encode s.
Proof.
  intros H; unfold decode_input_string, unicode_escape_decode.
  destruct (utf8_encode s) as [bs|e] eqn:E; cbn [bind]; [|reflexivity].
  pose proof (escape_run_plain bs [] [] (utf8_encode_backslash_free H E))
    as R.
  rewrite app_nil_r in R; rewrite R; reflexivity.
Qed.

Lemma decode_trailing_backslash (u : str) :
  plain_ascii u -> decode_input_string (u ++ [92]) = Raise UnicodeDecodeError.
Proof.
  intros H; apply plain_ascii_split in H as [H1 H2].
  unfold decode_input_string, unicode_escape_decode.
  rewrite utf8_encode_ascii
    by (rewrite forallb_app; apply andb_true_intro; split;
        [exact H1|reflexivity]).
  cbn [bind].
  rewrite (escape_run_plain _ _ [] H2); reflexivity.
Qed.

(** X12: an input string that ends in a single backslash after ASCII
    text cannot be decoded: [main] prints nothing and ends in an
    uncaught [UnicodeDecodeError], exit status 1, without a spell
    check. *)
Theorem trailing_backslash_aborts_the_run (w : world) (a : args)
        (u : str) :
  args_input_string a = Some (u ++ [92]) -> plain_ascii u ->
  json_loads w (args_include a) <> None ->
  json_loads w (args_exclude a) <> None ->
  main w a = ([], Raise UnicodeDecodeError)
  /\ exit_status (snd (main w a)) = 1%Z.
Proof.
  intros Hs Hu Hi He.
  assert (E : main w a = ([], Raise UnicodeDecodeError)).
  { unfold main.
    destruct (json_loads w (args_include a)) as [includes|]; [|congruence].
    destruct (json_loads w (args_exclude a)) as [excludes|]; [|congruence].
    unfold lift, or_raise; rewrite !io_bind_ok.
    unfold load_changes; rewrite Hs.
    replace (opt_truthy (Some (u ++ [92]))) with true
      by (now destruct u).
    rewrite (decode_trailing_backslash Hu); reflexivity. }
  now rewrite E.
Qed.

(** ** Further properties of the spell check *)

Lemma flat_map_nil {A B} (f : A -> list B) (l : list A) :
  (forall x, f x = []) -> flat_map f l = [].
Proof.
  intros H; induction l as [|x l IH]; cbn [flat_map]; [reflexivity|].
  now rewrite H, IH.
Qed.

Lemma flagged_tokens_none (dictionary_words : option (list str))
      (lines : list entry) :
  flagged_tokens [] dictionary_words lines = [].
Proof.
  unfold flagged_tokens; apply flat_map_nil; intros [lineno line].
  apply flat_map_nil; intros token.
  change (mem (filter isalpha token) []) with false.
  now rewrite andb_false_r.
Qed.

(** X13: when the checker prints nothing, or blanks only, no word is
    reported, whatever the lines and the allow-list. *)
Theorem silent_checker_gives_no_annotations (w : world) (is_debug : bool)
        (lines : list entry) (cmd : str)
        (dictionary_words : option (list str)) (stdout : str) :
  popen_communicate w (split cmd) (join [10] (map snd lines)) = Some stdout ->
  forallb isspace stdout = true ->
  snd (run_spell_checker w is_debug lines cmd dictionary_words) = Ok [].
Proof.
  intros H Hb.
  rewrite (run_spell_checker_ok _ is_debug _ _ dictionary_words H).
  cbn [snd]; unfold strip; rewrite (lstrip_blank _ Hb).
  change (splitlines (rstrip [])) with (@nil str).
  now rewrite flagged_tokens_none.
Qed.

Lemma filter_flat_map {A B} (p : B -> bool) (f : A -> list B)
      (l : list A) :
  filter p (flat_map f l) = flat_map (fun x => filter p (f x)) l.
Proof.
  induction l as [|x l IH]; cbn [flat_map]; [reflexivity|].
  now rewrite filter_app, IH.
Qed.

Lemma flat_map_pointwise {A B} (f g : A -> list B) (l : list A) :
  (forall x, f x = g x) -> flat_map f l = flat_map g l.
Proof.
  intros H; induction l as [|x l IH]; cbn [flat_map]; [reflexivity|].
  now rewrite H, IH.
Qed.

(** X14: the allow-list only removes annotations: the result with the
    words [dictionary_words] is the result with the empty allow-list
    without the annotations whose word is one of them, the others in the
    same order. *)
Theorem allow_list_filters_the_annotations (misspelled : list str)
        (dictionary_words : list str) (lines : list entry) :
  correlate misspelled (Some dictionary_words) lines
  = filter (fun an => negb (mem (annotation_word an) dictionary_words))
           (correlate misspelled (Some []) lines).
Proof.
  rewrite !correlate_flagged_tokens; unfold flagged_tokens.
  rewrite filter_flat_map; apply flat_map_pointwise; intros [lineno line].
  rewrite filter_flat_map; apply flat_map_pointwise; intros token.
  cbn [allow_listed]; change (mem (filter isalpha token) []) with false.
  destruct (truthy (filter isalpha token)
            && mem (filter isalpha token) misspelled);
    cbn [andb negb filter]; [|reflexivity].
  unfold annotation_word; cbn [fst snd].
  now destruct (mem (filter isalpha token) dictionary_words).
Qed.

(** ** Further properties of [get_diff_lines] *)

(** X15: when the output of [git diff -U0] for a file has no valid hunk
    header, as when it is empty, [get_diff_lines] returns the empty
    list. *)
Theorem get_diff_lines_without_hunk (w : world) (is_debug : bool)
        (file base_branch : str) (rc : Z) (stdout : str) :
  subprocess_run w (diff_cmd base_branch file) = Some (rc, stdout) ->
  Forall (fun l => valid_hunk_header l = false) (splitlines stdout) ->
  snd (get_diff_lines w is_debug file base_branch) = Ok [].
Proof.
  unfold diff_cmd, get_diff_lines; intros H Hv.
  rewrite ?snd_io_bind.
  replace (snd (when is_debug
                  (print (lit "Diff cmd '"
                          ++ format_list w
                               [lit "git"; lit "diff"; lit "-U0";
                                lit "origin/" ++ base_branch; lit "--";
                                file]
                          ++ lit "'")))) with (Ok tt)
    by (now destruct is_debug).
  cbn [bind]; rewrite ?snd_io_bind, H; cbn [lift or_raise snd bind].
  rewrite ?snd_io_bind, parse_diff_content_run; cbn [lift snd bind io_ret].
  destruct (@run_without_valid_header (splitlines stdout) initial_state
              eq_refl Hv) as (_ & -> & _).
  reflexivity.
Qed.

(** ** Further properties of runs of [main] *)

Lemma fst_io_bind {A B} (c : io A) (k : A -> io B) :
  fst (io_bind c k)
  = fst c ++ match snd c with
             | Ok a => fst (k a)
             | Raise _ => []
             end.
Proof.
  destruct c as [out [x|e]]; cbn [io_bind fst snd]; [reflexivity|].
  now rewrite app_nil_r.
Qed.

Lemma io_quiet_bind {A B} (c : io A) (k : A -> io B) :
  io_quiet c -> (forall x, io_quiet (k x)) -> io_quiet (io_bind c k).
Proof.
  unfold io_quiet; intros Hc Hk; rewrite fst_io_bind, Hc.
  destruct (snd c); [apply Hk|reflexivity].
Qed.

Lemma io_quiet_fold {S A} (body : S -> A -> io S) (xs : list A) (acc : S) :
  (forall acc x, io_quiet (body acc x)) -> io_quiet (io_fold body xs acc).
Proof.
  intros H; revert acc; induction xs as [|x xs IH]; intros acc;
    cbn [io_fold]; [reflexivity|].
  apply io_quiet_bind; [apply H|apply IH].
Qed.

Ltac io_is_quiet :=
  repeat match goal with
         | |- io_quiet (io_bind _ _) => apply io_quiet_bind; [|intros]
         | |- io_quiet (io_ret _) => reflexivity
         | |- io_quiet (lift _) => reflexivity
         | |- io_quiet (when false _) => reflexivity
         | |- io_quiet (when ?b _) => destruct b; cbn [when]
         | |- io_quiet (let _ := _ in _) => cbv zeta
         end.

Lemma io_quiet_get_diff_files (w : world) (base_branch : str)
      (includes excludes : list str) :
  io_quiet (get_diff_files w false base_branch includes excludes).
Proof. unfold get_diff_files, is_detached_head; io_is_quiet. Qed.

Lemma io_quiet_get_diff_lines (w : world) (file base_branch : str) :
  io_quiet (get_diff_lines w false file base_branch).
Proof. unfold get_diff_lines; io_is_quiet. Qed.

(** With debugging off, the changes are loaded without a line printed. *)
Lemma load_changes_quiet (w : world) (a : args)
      (includes excludes : list str) (fc : dict) :
  snd (load_changes w a false includes excludes) = Ok (Some fc) ->
  io_quiet (load_changes w a false includes excludes).
Proof.
  unfold load_changes.
  destruct (opt_truthy (args_input_string a)).
  { intros _; apply io_quiet_bind; [reflexivity|intros lines].
    destruct (startswith (lit "diff") (lstrip lines)); io_is_quiet. }
  destruct (opt_truthy (args_diff_file a)).
  { destruct (negb (isfile w match args_diff_file a with
                             | Some p => p
                             | None => []
                             end)); [discriminate|].
    intros _; io_is_quiet. }
  intros H; unfold io_quiet.
  rewrite fst_io_bind, io_quiet_get_diff_files; rewrite snd_io_bind in H.
  destruct (snd (get_diff_files w false (args_base_branch a) includes
                   excludes)) as [[|f files]|]; cbn [bind] in H;
    try discriminate.
  cbn [app]; apply io_quiet_bind; [|intros; reflexivity].
  apply io_quiet_fold; intros acc x.
  apply io_quiet_bind; [apply io_quiet_get_diff_lines|intros; reflexivity].
Qed.

Lemma render_lines (a : args) (file : str) (annotations : list annotation) :
  render (args_console_output a) false file annotations
  = (map (annotation_line a file) annotations, Ok tt).
Proof.
  unfold render, annotation_line.
  destruct (args_console_output a).
  - apply emit_console_output_lines.
  - rewrite emit_github_annotations_lines; cbn [app].
    now rewrite flat_map_singleton.
Qed.

(** With debugging off, the loop over the files prints the annotation
    lines and nothing else, when it comes to its end. *)
Lemma check_files_output_from (w : world) (a : args) (file_changes : dict)
      (any_issues : bool) :
  main_debug w a = false ->
  match snd (io_fold
               (fun any_issues '(file, lines) =>
                  io_bind
                    (run_spell_checker w false lines (args_cmd a)
                       (Some (main_dictionary a)))
                    (fun annotations =>
                       match annotations with
                       | [] => io_ret any_issues
                       | _ :: _ =>
                           io_bind
                             (render (args_console_output a) false
                                file annotations)
                             (fun _ => io_ret true)
                       end))
               file_changes any_issues) with
  | Ok _ =>
      fst (io_fold
             (fun any_issues '(file, lines) =>
                io_bind
                  (run_spell_checker w false lines (args_cmd a)
                     (Some (main_dictionary a)))
                  (fun annotations =>
                     match annotations with
                     | [] => io_ret any_issues
                     | _ :: _ =>
                         io_bind
                           (render (args_console_output a) false
                              file annotations)
                           (fun _ => io_ret true)
                     end))
             file_changes any_issues)
      = annotation_lines w a file_changes
  | Raise _ => True
  end.
Proof.
  intros Hd; unfold annotation_lines; revert any_issues.
  induction file_changes as [|[file lines] fc IH]; intros acc;
    [reflexivity|].
  cbn [io_fold flat_map fst].
  unfold file_annotations at 1; rewrite Hd; cbn [snd].
  destruct (popen_communicate w (split (args_cmd a))
              (join [10] (map snd lines))) as [stdout|] eqn:E.
  - rewrite (run_spell_checker_ok _ false _ _ (Some (main_dictionary a)) E).
    rewrite io_bind_ok; cbn [snd app].
    destruct (flagged_tokens (splitlines (strip stdout))
                (Some (main_dictionary a)) lines) as [|an anns].
    + cbn [io_ret fst snd map app]; rewrite io_bind_ok; cbn [app snd fst].
      apply IH.
    + rewrite render_lines, !io_bind_ok; cbn [io_ret fst snd].
      rewrite app_nil_r, io_bind_ok; cbn [fst snd].
      specialize (IH true).
      destruct (snd (io_fold _ fc true)); [|exact I].
      now rewrite IH.
  - rewrite snd_io_bind, snd_io_bind.
    rewrite (run_spell_checker_failed _ false _ _
               (Some (main_dictionary a)) E).
    exact I.
Qed.


Lemma annotation_lines_length (w : world) (a : args) (fc : dict) :
  length (annotation_lines w a fc)
  = length (flat_map (file_annotations w a) fc).
Proof.
  unfold annotation_lines; induction fc as [|x fc IH]; cbn [flat_map];
    [reflexivity|].
  now rewrite !length_app, length_map, IH.
Qed.

(** X16: with debugging off, a run that checks the files
    [file_changes] and comes to its end prints one line for each
    annotation, file by file, and after them the line that no typos
    were found exactly when there is no annotation; the script prints
    nothing else. *)
Theorem quiet_run_prints_annotations_then_verdict (w : world) (a : args)
        (includes excludes : list str) (fc : dict) :
  main_debug w a = false ->
  json_loads w (args_include a) = Some includes ->
  json_loads w (args_exclude a) = Some excludes ->
  snd (load_changes w a false includes excludes) = Ok (Some fc) ->
  completes (snd (main w a)) ->
  fst (main w a)
  = annotation_lines w a fc
    ++ (if nonempty (produced w a) then [] else [no_typos_message])
  /\ length (annotation_lines w a fc) = length (produced w a).
Proof.
  intros Hd Hi He Hl Hc.
  assert (Hp : produced w a = flat_map (file_annotations w a) fc).
  { unfold produced; now rewrite Hi, He, Hd, Hl. }
  rewrite Hp; split; [|apply annotation_lines_length].
  pose proof (main_result w a) as R; rewrite Hi, He, Hd, Hl in R.
  pose proof (check_files_result w a fc) as C; rewrite Hd in C.
  pose proof (@check_files_output_from w a fc false Hd) as O.
  fold (check_files w a false (main_dictionary a) fc) in O.
  rewrite R in Hc; clear R.
  pose proof (load_changes_quiet _ _ _ _ Hl) as Q; unfold io_quiet in Q.
  unfold main; fold (main_debug w a); fold (main_dictionary a).
  rewrite Hd, Hi, He; unfold lift, or_raise; rewrite !io_bind_ok.
  cbn [fst snd app].
  rewrite (surjective_pairing (load_changes w a false includes excludes)).
  rewrite Q, Hl, io_bind_ok; cbn [fst snd app].
  rewrite (surjective_pairing
             (check_files w a false (main_dictionary a) fc)).
  destruct (snd (check_files w a false (main_dictionary a) fc))
    as [b|e].
  - rewrite O, io_bind_ok, <- C; now destruct b.
  - subst e; destruct Hc.
Qed.

(** X17: when git reports no changed file that passes the filter, [main]
    prints that there are no files to check, after the debug lines of
    [get_diff_files] if any, and returns without a spell check. *)
Theorem no_files_to_check_ends_the_run (w : world) (a : args)
        (includes excludes : list str) :
  opt_truthy (args_input_string a) = false ->
  opt_truthy (args_diff_file a) = false ->
  json_loads w (args_include a) = Some includes ->
  json_loads w (args_exclude a) = Some excludes ->
  snd (get_diff_files w (main_debug w a) (args_base_branch a) includes
         excludes) = Ok [] ->
  main w a
  = (fst (get_diff_files w (main_debug w a) (args_base_branch a) includes
            excludes) ++ [no_files_message], Ok tt).
Proof.
  intros Hs Hf Hi He Hg.
  unfold main; fold (main_debug w a); fold (main_dictionary a).
  rewrite Hi, He; unfold lift, or_raise; rewrite !io_bind_ok.
  cbn [fst snd app].
  unfold load_changes; rewrite Hs, Hf.
  destruct (get_diff_files w (main_debug w a) (args_base_branch a)
              includes excludes) as [out r].
  cbn [fst snd] in Hg |- *; subst r.
  unfold print, io_ret, io_bind; cbn [fst snd app].
  now rewrite app_nil_r.
Qed.

(** X18: when the diff file is the source and does not exist, [main]
    prints the one line that names it and exits with status 1; the file
    is not read and nothing is checked. *)
Theorem missing_diff_file_is_reported (w : world) (a : args) (path : str) :
  opt_truthy (args_input_string a) = false ->
  args_diff_file a = Some path -> truthy path = true ->
  isfile w path = false ->
  json_loads w (args_include a) <> None ->
  json_loads w (args_exclude a) <> None ->
  main w a = ([missing_diff_file_message path], Raise (SystemExit 1)).
Proof.
  intros Hs Hf Hp Hn Hi He.
  unfold main; fold (main_debug w a); fold (main_dictionary a).
  destruct (json_loads w (args_include a)) as [includes|]; [|congruence].
  destruct (json_loads w (args_exclude a)) as [excludes|]; [|congruence].
  unfold lift, or_raise; rewrite !io_bind_ok.
  cbn [fst snd app].
  unfold load_changes; rewrite Hs, Hf; cbn [opt_truthy]; rewrite Hp, Hn.
  reflexivity.
Qed.

Lemma io_bind_pointwise {A B} (c : io A) (k k' : A -> io B) :
  (forall x, k x = k' x) -> io_bind c k = io_bind c k'.
Proof.
  intros H; destruct c as [out [x|e]]; cbn [io_bind]; [|reflexivity].
  now rewrite H.
Qed.

Lemma io_fold_pointwise {S A} (f g : S -> A -> io S) (xs : list A)
      (acc : S) :
  (forall acc x, f acc x = g acc x) -> io_fold f xs acc = io_fold g xs acc.
Proof.
  intros H; revert acc; induction xs as [|x xs IH]; intros acc;
    cbn [io_fold]; [reflexivity|].
  rewrite H; apply io_bind_pointwise; intros acc'; apply IH.
Qed.

Lemma check_files_same_checker (w w' : world) (a : args) (is_debug : bool)
      (dictionary_words : list str) (fc : dict) :
  (forall argv input,
     popen_communicate w argv input = popen_communicate w' argv input) ->
  check_files w a is_debug dictionary_words fc
  = check_files w' a is_debug dictionary_words fc.
Proof.
  intros H; unfold check_files; apply io_fold_pointwise.
  intros acc [file lines]; unfold run_spell_checker.
  now rewrite H.
Qed.

Lemma main_same_source (w w' : world) (a : args) :
  getenv w (lit "INPUT_DEBUG") = getenv w' (lit "INPUT_DEBUG") ->
  json_loads w (args_include a) = json_loads w' (args_include a) ->
  json_loads w (args_exclude a) = json_loads w' (args_exclude a) ->
  (forall argv input,
     popen_communicate w argv input = popen_communicate w' argv input) ->
  (forall is_debug includes excludes,
     load_changes w a is_debug includes excludes
     = load_changes w' a is_debug includes excludes) ->
  main w a = main w' a.
Proof.
  intros Hg Hi He Hp Hl; unfold main; rewrite Hg, Hi, He.
  apply io_bind_pointwise; intros includes.
  apply io_bind_pointwise; intros excludes.
  rewrite Hl; apply io_bind_pointwise; intros [fc|]; [|reflexivity].
  now rewrite (check_files_same_checker w w' a _ _ fc Hp).
Qed.

(** X19: with an input string, [main] consults neither the file system
    nor git nor the globs: two worlds that agree on the environment, on
    the JSON reading of the two lists and on the checker give the same
    run. *)
Theorem input_string_run_ignores_files_and_git (w w' : world) (a : args) :
  opt_truthy (args_input_string a) = true ->
  getenv w (lit "INPUT_DEBUG") = getenv w' (lit "INPUT_DEBUG") ->
  json_loads w (args_include a) = json_loads w' (args_include a) ->
  json_loads w (args_exclude a) = json_loads w' (args_exclude a) ->
  (forall argv input,
     popen_communicate w argv input = popen_communicate w' argv input) ->
  main w a = main w' a.
Proof.
  intros Hs Hg Hi He Hp; apply main_same_source; try assumption.
  intros is_debug includes excludes; unfold load_changes.
  now rewrite Hs.
Qed.

(** X20: with a diff file and no input string, [main] does not run git
    and does not expand a glob: two worlds that agree on the environment,
    the JSON reading, the checker and the diff file give the same run,
    and the include and exclude lists filter nothing. *)
Theorem diff_file_run_ignores_git (w w' : world) (a : args) :
  opt_truthy (args_input_string a) = false ->
  opt_truthy (args_diff_file a) = true ->
  getenv w (lit "INPUT_DEBUG") = getenv w' (lit "INPUT_DEBUG") ->
  json_loads w (args_include a) = json_loads w' (args_include a) ->
  json_loads w (args_exclude a) = json_loads w' (args_exclude a) ->
  (forall argv input,
     popen_communicate w argv input = popen_communicate w' argv input) ->
  (forall path, isfile w path = isfile w' path) ->
  (forall path, read_file w path = read_file w' path) ->
  main w a = main w' a
  /\ forall is_debug includes excludes includes' excludes',
       load_changes w a is_debug includes excludes
       = load_changes w a is_debug includes' excludes'.
Proof.
  intros Hs Hf Hg Hi He Hp Hisfile Hread; split.
  - apply main_same_source; try assumption.
    intros is_debug includes excludes; unfold load_changes.
    now rewrite Hs, Hf, Hisfile, Hread.
  - intros; unfold load_changes; now rewrite Hs, Hf.
Qed.

Lemma flagged_tokens_In (misspelled : list str)
      (dictionary_words : option (list str)) (lines : list entry)
      (n : Z) (word context : str) :
  In (n, word, context) (flagged_tokens misspelled dictionary_words lines) ->
  exists line token,
    In (n, line) lines /\ In token (split line)
    /\ word = filter isalpha token /\ context = strip line.
Proof.
  unfold flagged_tokens; intros H.
  apply in_flat_map in H; destruct H as ([lineno line] & Hl & H).
  apply in_flat_map in H; destruct H as (token & Ht & H).
  destruct (truthy (filter isalpha token)
            && mem (filter isalpha token) misspelled
            && negb (allow_listed dictionary_words (filter isalpha token)));
    [|destruct H].
  destruct H as [H|[]]; injection H as <- <- <-.
  exists line, token; repeat split; assumption.
Qed.

Lemma In_enumerate_from {A} (xs : list A) (k n : Z) (x : A) :
  In (n, x) (map (fun '(i, line) => ((i + 1)%Z, line)) (enumerate_from k xs))
  -> exists i, nth_error xs i = Some x /\ n = (k + Z.of_nat i + 1)%Z.
Proof.
  revert k; induction xs as [|y xs IH]; intros k; cbn [enumerate_from map];
    [intros []|].
  intros [H|H].
  - injection H as <- <-; exists 0%nat; split; [reflexivity|lia].
  - destruct (IH _ H) as (i & Hi & ->).
    exists (S i); split; [exact Hi|lia].
Qed.

(** X21: when the input string is checked as raw text, every annotation
    of the run points at a line of the decoded text by its position
    counted from 1, carries that line stripped as context, and its word
    is a token of that line without its non-letters. *)
Theorem raw_text_annotations_point_at_lines (w : world) (a : args)
        (s text : str) :
  args_input_string a = Some s -> s <> [] ->
  decode_input_string s = Ok text ->
  startswith (lit "diff") (lstrip text) = false ->
  forall n word context,
    In (n, word, context) (produced w a) ->
    exists i line token,
      nth_error (splitlines text) i = Some line
      /\ n = (Z.of_nat i + 1)%Z
      /\ context = strip line
      /\ In token (split line) /\ word = filter isalpha token.
Proof.
  intros Hs Hne Hdec Hraw n word context; unfold produced.
  destruct (json_loads w (args_include a)) as [includes|]; [|intros []].
  destruct (json_loads w (args_exclude a)) as [excludes|]; [|intros []].
  unfold load_changes; rewrite Hs.
  destruct s as [|c s]; [congruence|]; cbn [opt_truthy truthy].
  rewrite Hdec; unfold lift; rewrite io_bind_ok, Hraw.
  cbn [io_ret fst snd flat_map]; rewrite app_nil_r.
  unfold file_annotations; cbn [snd].
  destruct (popen_communicate w (split (args_cmd a))
              (join [10]
                 (map snd
                    (map (fun '(i, line) => ((i + 1)%Z, line))
                       (enumerate (splitlines text)))))) as [stdout|] eqn:E.
  - rewrite (run_spell_checker_ok _ _ _ _ _ E); cbn [snd]; intros H.
    apply flagged_tokens_In in H.
    destruct H as (line & token & Hl & Ht & -> & ->).
    apply In_enumerate_from in Hl; destruct Hl as (i & Hi & ->).
    exists i, line, token; repeat split; try assumption; lia.
  - rewrite (run_spell_checker_failed _ _ _ _ _ E); intros [].
Qed.

(** ** Further properties of the sources in git mode *)

Lemma get_diff_files_after_fetch (w : world) (is_debug : bool)
      (base_branch : str) (includes excludes : list str) (r : io unit)
      (rc : Z) (stdout : str) :
  snd r = Ok tt ->
  subprocess_run w (name_only_cmd base_branch) = Some (rc, stdout) ->
  snd (io_bind r
         (fun _ =>
            let cmd := [lit "git"; lit "diff"; lit "--name-only";
                        lit "origin/" ++ base_branch] in
            io_bind
              (when is_debug
                 (print (lit "git diff cmd: '" ++ format_list w cmd
                         ++ lit "'")))
              (fun _ =>
                 io_bind (lift (or_raise OSError (subprocess_run w cmd)))
                   (fun result =>
                      let changed_files :=
                        to_set (splitlines (strip (snd result))) in
                      io_bind
                        (when is_debug
                           (print (lit "All files '"
                                   ++ format_set w changed_files
                                   ++ lit "'")))
                        (fun _ =>
                           io_bind (lift (glob_relative w includes))
                             (fun included =>
                                io_bind (lift (glob_relative w excludes))
                                  (fun excluded =>
                                     let changed_files :=
                                       sorted
                                         (set_diff
                                            (set_inter changed_files
                                               included) excluded) in
                                     io_bind
                                       (when is_debug
                                          (print
                                             (lit "Filtered files "
                                              ++ format_list w
                                                   changed_files)))
                                       (fun _ => io_ret changed_files))))))))
  = filtered_files w stdout includes excludes.
Proof.
  intros Hr Hrun; unfold name_only_cmd in Hrun; unfold filtered_files.
  rewrite snd_io_bind, Hr; cbn [bind]; cbv zeta.
  rewrite snd_io_bind.
  match goal with
  | |- context [snd (when is_debug ?c)] =>
      replace (snd (when is_debug c)) with (Ok tt)
        by (now destruct is_debug)
  end.
  cbn [bind]; rewrite snd_io_bind, Hrun; cbn [lift or_raise snd bind].
  rewrite snd_io_bind.
  match goal with
  | |- context [snd (when is_debug ?c)] =>
      replace (snd (when is_debug c)) with (Ok tt)
        by (now destruct is_debug)
  end.
  cbn [bind]; rewrite snd_io_bind; cbn [lift snd].
  destruct (glob_relative w includes) as [included|e]; cbn [bind];
    [|reflexivity].
  rewrite snd_io_bind; cbn [lift snd].
  destruct (glob_relative w excludes) as [excluded|e]; cbn [bind];
    [|reflexivity].
  rewrite snd_io_bind.
  match goal with
  | |- context [snd (when is_debug ?c)] =>
      replace (snd (when is_debug c)) with (Ok tt)
        by (now destruct is_debug)
  end.
  reflexivity.
Qed.

(** X22: [get_diff_files] fetches the base branch only when
    [git symbolic-ref] returns a code other than 0.  On a branch the
    answer to the fetch has no part in the result; with a detached head a
    fetch that cannot be started raises [OSError], and a fetch that was
    started, whatever its return code, has none either: the result is
    then the filtered answer of [git diff --name-only]. *)
Theorem fetch_only_when_head_is_detached (w : world) (is_debug : bool)
        (base_branch : str) (includes excludes : list str) (c : Z)
        (out : str) (rc : Z) (stdout : str) :
  subprocess_run w symbolic_ref_cmd = Some (c, out) ->
  subprocess_run w (name_only_cmd base_branch) = Some (rc, stdout) ->
  snd (get_diff_files w is_debug base_branch includes excludes)
  = if (c =? 0)%Z then filtered_files w stdout includes excludes
    else match subprocess_run w (fetch_cmd base_branch) with
         | Some _ => filtered_files w stdout includes excludes
         | None => Raise OSError
         end.
Proof.
  unfold symbolic_ref_cmd, fetch_cmd; intros Hsym Hdiff.
  unfold get_diff_files, is_detached_head; rewrite Hsym.
  unfold lift at 1, or_raise at 1; rewrite io_bind_ok.
  cbn [io_ret fst snd app]; rewrite io_bind_ok; cbn [fst snd app].
  destruct (c =? 0)%Z; cbn [negb].
  - now apply get_diff_files_after_fetch with (rc := rc).
  - destruct (subprocess_run w
                [lit "git"; lit "fetch"; lit "origin"; base_branch])
      as [answer|] eqn:Hf.
    + apply get_diff_files_after_fetch with (rc := rc); [|assumption].
      cbn [when]; rewrite !snd_io_bind.
      now destruct is_debug.
    + cbn [when]; rewrite !snd_io_bind.
      now destruct is_debug.
Qed.

Lemma get_diff_lines_value (w : world) (is_debug : bool)
      (file base_branch : str) (rc : Z) (stdout : str) (d : dict) :
  subprocess_run w (diff_cmd base_branch file) = Some (rc, stdout) ->
  parse_diff_content stdout = Ok d ->
  snd (get_diff_lines w is_debug file base_branch)
  = Ok (get_or_empty d file).
Proof.
  unfold diff_cmd, get_diff_lines; intros H Hd.
  rewrite ?snd_io_bind.
  match goal with
  | |- context [snd (when is_debug ?c)] =>
      replace (snd (when is_debug c)) with (Ok tt)
        by (now destruct is_debug)
  end.
  cbn [bind]; rewrite ?snd_io_bind, H; cbn [lift or_raise snd bind].
  rewrite ?snd_io_bind, Hd; reflexivity.
Qed.

(** X23: [get_diff_lines] keeps the entries recorded under the very
    path it was called with.  When git's output, cut into lines by
    [str.splitlines], is lines that do not act (as [diff --git], [index]
    and [---]), one [+++] header, one valid hunk header that starts at
    [c] and the lines of that hunk, the added lines are returned,
    numbered from [c], if the header's path is the file, and nothing is
    returned otherwise, as for a path that git prints in quotes. *)
Theorem get_diff_lines_keeps_own_path (w : world) (is_debug : bool)
        (file base_branch : str) (rc : Z) (stdout : str)
        (pre : list str) (hdr h : str) (c : Z) (block : list str) :
  subprocess_run w (diff_cmd base_branch file) = Some (rc, stdout) ->
  splitlines stdout = pre ++ hdr :: h :: block ->
  Forall (fun l => acts l = false) pre ->
  is_file_header hdr = true -> new_file_path hdr <> [] ->
  is_hunk_header h = true -> hunk_start h = Some c ->
  Forall (fun l => is_file_header l = false /\ is_hunk_header l = false)
         block ->
  snd (get_diff_lines w is_debug file base_branch)
  = Ok (if str_eqb (new_file_path hdr) file
        then numbered c (added_texts block) else []).
Proof.
  intros Hrun Hlines Hpre Hhdr Hp Hh Hc Hblock.
  rewrite (@get_diff_lines_value _ is_debug _ _ _ _ _ Hrun
             (parse_diff_content_run stdout)).
  rewrite Hlines, (@single_hunk_run pre hdr h c block Hpre Hhdr Hp Hh Hc
                     Hblock).
  destruct (str_eqb (new_file_path hdr) file) eqn:E.
  - apply str_eqb_eq in E; rewrite <- E.
    now rewrite get_or_empty_single_file.
  - apply str_eqb_neq in E; unfold get_or_empty.
    rewrite get_single_file; [reflexivity|congruence].
Qed.

Lemma flagged_tokens_not_allowed (misspelled : list str)
      (dictionary_words : option (list str)) (lines : list entry)
      (n : Z) (word context : str) :
  In (n, word, context) (flagged_tokens misspelled dictionary_words lines) ->
  allow_listed dictionary_words word = false.
Proof.
  unfold flagged_tokens; intros H.
  apply in_flat_map in H; destruct H as ([lineno line] & Hl & H).
  apply in_flat_map in H; destruct H as (token & Ht & H).
  destruct (truthy (filter isalpha token)
            && mem (filter isalpha token) misspelled
            && negb (allow_listed dictionary_words (filter isalpha token)))
    eqn:E; [|destruct H].
  destruct H as [H|[]]; injection H as <- <- <-.
  apply andb_prop in E; destruct E as [_ E]; now apply negb_true_iff in E.
Qed.

Lemma mem_main_dictionary (a : args) (word : str) :
  mem word (main_dictionary a) = mem word (split (args_dictionary a)).
Proof.
  unfold main_dictionary.
  destruct (args_dictionary a) as [|c s]; [reflexivity|].
  cbn [truthy]; apply mem_to_set.
Qed.

(** X24: a word of the [--dictionary] string, which is split at
    whitespace, is never reported: no annotation of a run carries it. *)
Theorem dictionary_words_are_never_reported (w : world) (a : args)
        (n : Z) (word context : str) :
  In (n, word, context) (produced w a) ->
  ~ In word (split (args_dictionary a)).
Proof.
  unfold produced.
  destruct (json_loads w (args_include a)) as [includes|]; [|intros []].
  destruct (json_loads w (args_exclude a)) as [excludes|]; [|intros []].
  destruct (snd (load_changes w a (main_debug w a) includes excludes))
    as [[fc|]|e]; try (intros []).
  intros H; apply in_flat_map in H; destruct H as ([file lines] & _ & H).
  unfold file_annotations in H; cbn [snd] in H.
  destruct (popen_communicate w (split (args_cmd a))
              (join [10] (map snd lines))) as [stdout|] eqn:E.
  - rewrite (run_spell_checker_ok _ _ _ _ _ E) in H; cbn [snd] in H.
    apply flagged_tokens_not_allowed in H; cbn [allow_listed] in H.
    rewrite mem_main_dictionary in H; intros Hin.
    apply mem_In in Hin; congruence.
  - rewrite (run_spell_checker_failed _ _ _ _ _ E) in H; destruct H.
Qed.

(** X25: when the checker cannot be started for the first file to
    check, the run ends in an uncaught [OSError], exit status 1, and not
    with the status of a finding. *)
Theorem checker_failure_aborts_the_run (w : world) (a : args)
        (includes excludes : list str) (file : str) (lines : list entry)
        (rest : dict) :
  json_loads w (args_include a) = Some includes ->
  json_loads w (args_exclude a) = Some excludes ->
  snd (load_changes w a (main_debug w a) includes excludes)
  = Ok (Some ((file, lines) :: rest)) ->
  popen_communicate w (split (args_cmd a)) (join [10] (map snd lines))
  = None ->
  snd (main w a) = Raise OSError
  /\ exit_status (snd (main w a)) = 1%Z
  /\ ~ completes (snd (main w a)).
Proof.
  intros Hi He Hl Hp.
  assert (E : snd (main w a) = Raise OSError).
  { rewrite main_result, Hi, He, Hl.
    unfold check_files; cbn [io_fold]; rewrite !snd_io_bind.
    now rewrite (run_spell_checker_failed _ _ _ _ _ Hp). }
  rewrite E; repeat split; intros [].
Qed.

Lemma hd_io_bind {A B} (c : io A) (k : A -> io B) (x : str) :
  hd_error (fst c) = Some x -> hd_error (fst (io_bind c k)) = Some x.
Proof.
  rewrite fst_io_bind; destruct (fst c); [discriminate|now intros].
Qed.

(** X26: any non-empty value of the environment variable
    [INPUT_DEBUG], the text [false] too, switches debugging on: a run on
    a raw input string then prints the checker's command line first. *)
Theorem any_input_debug_value_switches_debugging_on (w : world) (a : args)
        (v s text : str) :
  getenv w (lit "INPUT_DEBUG") = Some v -> v <> [] ->
  args_input_string a = Some s -> s <> [] ->
  decode_input_string s = Ok text ->
  startswith (lit "diff") (lstrip text) = false ->
  json_loads w (args_include a) <> None ->
  json_loads w (args_exclude a) <> None ->
  main_debug w a = true
  /\ hd_error (fst (main w a)) = Some (checker_trace a).
Proof.
  intros Hg Hv Hs Hne Hdec Hraw Hi He.
  assert (Hd : main_debug w a = true).
  { unfold main_debug; rewrite Hg; now destruct v. }
  split; [assumption|].
  unfold main; fold (main_debug w a); fold (main_dictionary a).
  destruct (json_loads w (args_include a)) as [includes|]; [|congruence].
  destruct (json_loads w (args_exclude a)) as [excludes|]; [|congruence].
  unfold lift, or_raise; rewrite !io_bind_ok; cbn [fst snd app].
  unfold load_changes; rewrite Hs.
  destruct s as [|c s]; [congruence|]; cbn [opt_truthy truthy].
  rewrite Hdec; unfold lift; rewrite io_bind_ok, Hraw.
  cbn [io_ret fst snd app]; rewrite io_bind_ok; cbn [fst snd app].
  apply hd_io_bind; unfold check_files; cbn [io_fold].
  do 2 apply hd_io_bind.
  unfold run_spell_checker; rewrite Hd; reflexivity.
Qed.

(** ** The claim about the exit status *)








End Interpreter.

(** ** Concrete runs *)

(** The script under the ASCII interpreter. *)
Abbreviation run_main :=
  (main ascii_alpha ascii_decimal default_max_str_digits no_names).
Abbreviation run_produced :=
  (produced ascii_alpha ascii_decimal default_max_str_digits no_names).
Abbreviation run_parse :=
  (parse_diff_content ascii_decimal default_max_str_digits).

(** C1, witness: one hunk of two added lines for [file.md]. *)
Lemma single_hunk_round_trip_witness :
  round_trip ascii_decimal default_max_str_digits true (lit "file.md")
    (lit "1") (lit "0") (lit "7") (lit "2")
    [lit "Another bad werd here."; lit "teh end"].
Proof.
  apply (@single_hunk_round_trip ascii_decimal default_max_str_digits true
           (lit "file.md") (lit "1") (lit "0") (lit "7") (lit "2")
           [lit "Another bad werd here."; lit "teh end"]).
  - discriminate.
  - reflexivity.
  - discriminate.
  - split; [discriminate|reflexivity].
  - split; [discriminate|reflexivity].
  - split; [discriminate|reflexivity].
  - split; [discriminate|reflexivity].
  - reflexivity.
  - repeat constructor.
  - repeat constructor.
Defined.

(** C1, counterexample: the added line [++i;] reads [+++i;] in the diff;
    it starts with [+], yet the parser takes it for a file header and
    records nothing for [f.c]. *)
Lemma plus_plus_line_is_not_recorded :
  ~ round_trip ascii_decimal default_max_str_digits true (lit "f.c")
      (lit "1") (lit "0") (lit "1") (lit "1") [lit "++i;"].
Proof.
  intros (d & Hparse & _ & Hlen & _).
  vm_compute in Hparse; injection Hparse as <-.
  discriminate Hlen.
Qed.

(** C2, counterexample: [b.md] has no hunk header between its [+++] line
    and its added line, and still gets an entry: the counter set by the
    hunk header of [a.md] is still there. *)
Lemma entry_without_own_hunk_header :
  ~ (forall pre F rest d,
       Forall (fun l => is_hunk_header l = false) rest ->
       Forall (fun l => is_file_header l = true -> new_file_path l <> F)
              pre ->
       run_parse (unlines (pre ++ file_header_line true F :: rest)) = Ok d ->
       get d F = None).
Proof.
  intros H.
  specialize (H two_files_one_hunk (lit "b.md") [lit "+teh"]
                [(lit "a.md", [(1%Z, lit "x")]);
                 (lit "b.md", [(2%Z, lit "teh")])]).
  discriminate H.
  - repeat constructor.
  - repeat constructor; vm_compute; discriminate.
  - vm_compute; reflexivity.
Qed.

(** C3: after the valid header [@@ -1 +1 @@], the header [@@ garbage]
    has no token that starts with [+]; it leaves the counter at 2, and
    the added line [+y] is recorded under that number. *)
Theorem tokenless_hunk_header_keeps_counter :
  run_parse tokenless_header_diff
  = Ok [(lit "f.md", [(1%Z, lit "x"); (2%Z, lit "y")])]
  /\ hunk_header ascii_decimal default_max_str_digits (lit "@@ garbage")
       (Some 2%Z) = Ok (Some 2%Z).
Proof. split; vm_compute; reflexivity. Qed.

(** C4, counterexample: in a diff as git writes it, two files each gain
    a line [++ notes]; the parser reads both as the header of a file
    [notes], whose list then has the numbers 5, 1. *)
Lemma line_numbers_can_decrease :
  ~ (forall diff_text d F es,
       run_parse diff_text
       = Ok d ->
       get d F = Some es ->
       StronglySorted Z.le (map fst es)).
Proof.
  intros H.
  specialize (H plus_plus_notes_diff
                [(lit "notes", [(5%Z, lit "x"); (1%Z, lit "y")])]
                (lit "notes") [(5%Z, lit "x"); (1%Z, lit "y")]).
  assert (Hs : StronglySorted Z.le (map fst [(5%Z, lit "x"); (1%Z, lit "y")]))
    by (apply H; vm_compute; reflexivity).
  apply StronglySorted_inv in Hs as [_ Hs].
  apply Forall_inv in Hs; cbn in Hs; lia.
Qed.

(** The diff that deletes two files names [/dev/null] twice and is in
    order: no added line stands under either header.  So is the diff of
    one file that gains the line [++ notes], where an added line follows
    a [+++] line at once; the diff of two such files is not. *)
Lemma deletions_are_in_order :
  hunks_in_order ascii_decimal default_max_str_digits [] NoFile None
    (splitlines two_deletions_diff) = true
  /\ run_parse two_deletions_diff = Ok []
  /\ hunks_in_order ascii_decimal default_max_str_digits [] NoFile None
       (splitlines one_plus_plus_notes_diff) = true
  /\ run_parse one_plus_plus_notes_diff = Ok [(lit "notes", [(5%Z, lit "x")])]
  /\ hunks_in_order ascii_decimal default_max_str_digits [] NoFile None
       (splitlines plus_plus_notes_diff) = false.
Proof. repeat split; vm_compute; reflexivity. Qed.

(** A form feed is a line boundary to [str.splitlines]: the text after it
    is a piece of its own.  After an added line it is lost, and after a
    removed line a piece that starts with [+] is recorded. *)
Lemma form_feed_cuts_a_line :
  run_parse added_line_with_form_feed
  = Ok [(lit "f.md", [(1%Z, lit "foo"); (2%Z, lit "baz")])]
  /\ run_parse removed_line_with_form_feed
     = Ok [(lit "f.md", [(0%Z, lit "ghost")])].
Proof. split; vm_compute; reflexivity. Qed.


(** The repository of [git_world] is ready for the run in git mode. *)
Lemma git_world_is_ready :
  run_ready no_names git_world (args_with None None).
Proof.
  split; [vm_compute; discriminate|].
  split; [vm_compute; discriminate|].
  split; [intros s [=]|].
  split; [intros path [=]|].
  split.
  { intros argv H; cbn [git_world subprocess_run] in H.
    destruct (nth_error argv 2) as [x|]; [|discriminate].
    destruct (str_eqb x (lit "--name-only")); [discriminate|].
    destruct (str_eqb x (lit "-U0")); discriminate. }
  split; [intros argv input; discriminate|].
  intros path; exact I.
Qed.


(** With an input string of one space and a diff file that does not
    exist, the input string is the source: the status is 0. *)
Lemma missing_diff_file_yet_status_0 :
  ~ (forall w a,
       json_loads w (args_include a) <> None ->
       json_loads w (args_exclude a) <> None ->
       diff_file_missing w a ->
       exit_status (snd (run_main w a)) = 1%Z).
Proof.
  intros H.
  assert (E : exit_status
                (snd (run_main git_world
                        (args_with (Some (lit " "))
                           (Some (lit "changes.diff"))))) = 1%Z).
  { apply H; [vm_compute; discriminate..|].
    exists (lit "changes.diff"); split; reflexivity. }
  vm_compute in E; discriminate E.
Qed.



(** The run of the counterexample, in full. *)
Lemma empty_input_string_run :
  run_main git_world (args_with (Some []) None)
  = ([lit "::error file=notes.md,line=1::Possible typo: 'teh' in line: "
      ++ lit "teh cat"],
     Raise (SystemExit 1)).
Proof. vm_compute; reflexivity. Qed.

(** C10, witness: the argument [a\nb], four characters, is two lines. *)
Lemma input_string_decoded_then_classified_witness :
  classified ascii_decimal default_max_str_digits no_names git_world
    (args_with (Some (lit "a\nb")) None) false [] [] (lit "a\nb")
  /\ forall u v, plain_ascii u -> plain_ascii v ->
       decode_input_string no_names (u ++ lit "\n" ++ v)
       = Ok (u ++ [10] ++ v).
Proof.
  apply (@input_string_decoded_then_classified ascii_decimal
           default_max_str_digits no_names git_world
           (args_with (Some (lit "a\nb")) None) false [] [] (lit "a\nb")).
  - reflexivity.
  - discriminate.
Defined.

(** The entries of that run. *)
Lemma escaped_newline_gives_two_lines :
  load_changes ascii_decimal default_max_str_digits no_names git_world
    (args_with (Some (lit "a\nb")) None) false [] []
  = ([], Ok (Some [(lit "<stdin>", [(1%Z, lit "a"); (2%Z, lit "b")])])).
Proof. vm_compute; reflexivity. Qed.


(** *** Runs for the further properties *)

Lemma only_added_lines_advance_the_counter_witness :
  run_parse context_diff
  = Ok [(lit "file.md", [(7%Z, lit "first"); (8%Z, lit "second")])].
Proof.
  apply (@only_added_lines_advance_the_counter ascii_decimal
           default_max_str_digits context_diff context_diff_preamble
           (lit "+++ b/file.md") (lit "@@ -5,3 +7,5 @@") 7%Z
           hunk_with_context).
  - vm_compute; reflexivity.
  - repeat constructor.
  - reflexivity.
  - discriminate.
  - reflexivity.
  - vm_compute; reflexivity.
  - repeat constructor.
Defined.

Lemma crlf_diff_parses_alike_witness :
  run_parse (crlf_lines two_files_one_hunk)
  = run_parse (unlines two_files_one_hunk).
Proof.
  apply (@crlf_diff_parses_alike ascii_decimal default_max_str_digits
           two_files_one_hunk).
  repeat constructor.
Defined.

Lemma empty_path_header_records_nothing_witness :
  run_parse (unlines (before_empty_path ++ lit "+++ b/" :: after_empty_path))
  = run_parse (unlines before_empty_path).
Proof.
  apply (@empty_path_header_records_nothing ascii_decimal
           default_max_str_digits before_empty_path (lit "+++ b/")
           after_empty_path).
  - repeat constructor.
  - reflexivity.
  - repeat constructor.
  - reflexivity.
  - reflexivity.
  - repeat constructor.
Defined.

Lemma printed_hunk_header_sets_counter_witness :
  hunk_header ascii_decimal default_max_str_digits
    (hunk_line (of_Z 41) (of_Z 0) (of_Z 42) (of_Z 3)) None
  = Ok (Some 42%Z).
Proof.
  apply (@printed_hunk_header_sets_counter ascii_decimal
           default_max_str_digits 41 0 42 3 None); try lia.
  reflexivity.
Defined.

Lemma get_diff_files_sorted_and_filtered_witness :
  exists rc stdout,
    subprocess_run git_world (name_only_cmd (lit "master"))
    = Some (rc, stdout)
    /\ StronglySorted str_lt [lit "notes.md"]
    /\ forall f, In f [lit "notes.md"]
         <-> In f (splitlines (strip stdout))
             /\ matched git_world [lit "**/*.md"] f
             /\ ~ matched git_world [] f.
Proof.
  apply (@get_diff_files_sorted_and_filtered git_world false (lit "master")
           [lit "**/*.md"] [] [lit "notes.md"]).
  reflexivity.
Defined.

Lemma git_mode_checks_files_in_order_witness :
  StronglySorted str_lt [lit "notes.md"]
  /\ snd (load_changes ascii_decimal default_max_str_digits no_names
            git_world (args_with None None) false [lit "**/*.md"] [])
     = Ok (Some [(lit "notes.md", [(1%Z, lit "teh cat")])]).
Proof.
  apply (@git_mode_checks_files_in_order ascii_decimal
           default_max_str_digits no_names git_world (args_with None None)
           false [lit "**/*.md"] [] [lit "notes.md"]
           (fun _ => [(1%Z, lit "teh cat")])).
  - reflexivity.
  - reflexivity.
  - reflexivity.
  - intros f [<-|[]]; reflexivity.
Defined.

Lemma backslash_free_input_becomes_utf8_bytes_witness :
  decode_input_string no_names (lit "caf" ++ [233])
  = Ok (lit "caf" ++ [195; 169]).
Proof.
  apply (@backslash_free_input_becomes_utf8_bytes no_names
           (lit "caf" ++ [233])).
  reflexivity.
Defined.

Lemma trailing_backslash_aborts_the_run_witness :
  run_main git_world (args_with (Some (lit "teh cat\")) None)
  = ([], Raise UnicodeDecodeError)
  /\ exit_status
       (snd (run_main git_world (args_with (Some (lit "teh cat\")) None)))
     = 1%Z.
Proof.
  apply (@trailing_backslash_aborts_the_run ascii_alpha ascii_decimal
           default_max_str_digits no_names git_world
           (args_with (Some (lit "teh cat\")) None) (lit "teh cat")).
  - reflexivity.
  - reflexivity.
  - vm_compute; discriminate.
  - vm_compute; discriminate.
Defined.

Lemma silent_checker_gives_no_annotations_witness :
  snd (run_spell_checker ascii_alpha silent_checker_world false
         [(1%Z, lit "teh cat")] (lit "aspell list") (Some []))
  = Ok [].
Proof.
  apply (@silent_checker_gives_no_annotations ascii_alpha
           silent_checker_world false [(1%Z, lit "teh cat")]
           (lit "aspell list") (Some []) [10]).
  - reflexivity.
  - reflexivity.
Defined.

Lemma get_diff_lines_without_hunk_witness :
  snd (get_diff_lines ascii_decimal default_max_str_digits silent_git_world
         false (lit "notes.md") (lit "master"))
  = Ok [].
Proof.
  apply (@get_diff_lines_without_hunk ascii_decimal default_max_str_digits
           silent_git_world false (lit "notes.md") (lit "master") 0%Z []).
  - reflexivity.
  - constructor.
Defined.

Lemma quiet_run_prints_annotations_then_verdict_witness :
  fst (run_main (with_diff_file git_world)
         (args_with None (Some (lit "changes.diff"))))
  = annotation_lines ascii_alpha (with_diff_file git_world)
      (args_with None (Some (lit "changes.diff")))
      [(lit "notes.md", [(1%Z, lit "teh cat")])]
    ++ (if nonempty
             (run_produced (with_diff_file git_world)
                (args_with None (Some (lit "changes.diff"))))
        then [] else [no_typos_message])
  /\ length
       (annotation_lines ascii_alpha (with_diff_file git_world)
          (args_with None (Some (lit "changes.diff")))
          [(lit "notes.md", [(1%Z, lit "teh cat")])])
     = length
         (run_produced (with_diff_file git_world)
            (args_with None (Some (lit "changes.diff")))).
Proof.
  apply (@quiet_run_prints_annotations_then_verdict ascii_alpha
           ascii_decimal default_max_str_digits no_names
           (with_diff_file git_world)
           (args_with None (Some (lit "changes.diff")))
           [lit "**/*.md"] []
           [(lit "notes.md", [(1%Z, lit "teh cat")])]).
  - reflexivity.
  - reflexivity.
  - reflexivity.
  - vm_compute; reflexivity.
  - vm_compute; exact I.
Defined.

Lemma no_files_to_check_ends_the_run_witness :
  run_main silent_git_world (args_with None None)
  = ([no_files_message], Ok tt).
Proof.
  apply (@no_files_to_check_ends_the_run ascii_alpha ascii_decimal
           default_max_str_digits no_names silent_git_world
           (args_with None None) [lit "**/*.md"] []).
  - reflexivity.
  - reflexivity.
  - reflexivity.
  - reflexivity.
  - reflexivity.
Defined.

Lemma missing_diff_file_is_reported_witness :
  run_main git_world (args_with None (Some (lit "changes.diff")))
  = ([missing_diff_file_message (lit "changes.diff")],
     Raise (SystemExit 1)).
Proof.
  apply (@missing_diff_file_is_reported ascii_alpha ascii_decimal
           default_max_str_digits no_names git_world
           (args_with None (Some (lit "changes.diff")))
           (lit "changes.diff")).
  - reflexivity.
  - reflexivity.
  - reflexivity.
  - reflexivity.
  - vm_compute; discriminate.
  - vm_compute; discriminate.
Defined.

Lemma input_string_run_ignores_files_and_git_witness :
  run_main git_world (args_with (Some (lit "teh cat")) None)
  = run_main silent_git_world (args_with (Some (lit "teh cat")) None).
Proof.
  apply (@input_string_run_ignores_files_and_git ascii_alpha ascii_decimal
           default_max_str_digits no_names git_world silent_git_world
           (args_with (Some (lit "teh cat")) None)).
  - reflexivity.
  - reflexivity.
  - reflexivity.
  - reflexivity.
  - intros argv input; reflexivity.
Defined.

Lemma diff_file_run_ignores_git_witness :
  run_main (with_diff_file git_world)
    (args_with None (Some (lit "changes.diff")))
  = run_main (with_diff_file silent_git_world)
      (args_with None (Some (lit "changes.diff")))
  /\ forall is_debug includes excludes includes' excludes',
       load_changes ascii_decimal default_max_str_digits no_names
         (with_diff_file git_world)
         (args_with None (Some (lit "changes.diff")))
         is_debug includes excludes
       = load_changes ascii_decimal default_max_str_digits no_names
           (with_diff_file git_world)
           (args_with None (Some (lit "changes.diff")))
           is_debug includes' excludes'.
Proof.
  apply (@diff_file_run_ignores_git ascii_alpha ascii_decimal
           default_max_str_digits no_names (with_diff_file git_world)
           (with_diff_file silent_git_world)
           (args_with None (Some (lit "changes.diff")))).
  - reflexivity.
  - reflexivity.
  - reflexivity.
  - reflexivity.
  - reflexivity.
  - intros argv input; reflexivity.
  - intros path; reflexivity.
  - intros path; reflexivity.
Defined.

Lemma raw_text_annotations_point_at_lines_witness :
  exists i line token,
    nth_error (splitlines (lit "teh cat")) i = Some line
    /\ 1%Z = (Z.of_nat i + 1)%Z
    /\ lit "teh cat" = strip line
    /\ In token (split line) /\ lit "teh" = filter (isalpha ascii_alpha) token.
Proof.
  apply (@raw_text_annotations_point_at_lines ascii_alpha ascii_decimal
           default_max_str_digits no_names git_world
           (args_with (Some (lit "teh cat")) None)
           (lit "teh cat") (lit "teh cat")).
  - reflexivity.
  - discriminate.
  - reflexivity.
  - reflexivity.
  - vm_compute; left; reflexivity.
Defined.

Lemma fetch_only_when_head_is_detached_witness :
  snd (get_diff_files detached_world false (lit "master") [lit "**/*.md"] [])
  = Ok [lit "notes.md"].
Proof.
  apply (@fetch_only_when_head_is_detached detached_world false
           (lit "master") [lit "**/*.md"] [] 1%Z [] 0%Z
           (lit "notes.md" ++ [10])).
  - reflexivity.
  - reflexivity.
Defined.

(** With a detached head and no fetch to start, [OSError]. *)
Lemma detached_head_without_fetch :
  snd (get_diff_files detached_without_fetch_world false (lit "master")
         [lit "**/*.md"] [])
  = Raise OSError.
Proof. vm_compute; reflexivity. Qed.

(** A symbolic-link loop among the globbed paths ends [glob_relative]
    with [RuntimeError]. *)
Lemma glob_relative_at_a_loop :
  glob_relative looping_world [lit "**/*.md"] = Raise RuntimeError.
Proof. vm_compute; reflexivity. Qed.

Lemma get_diff_lines_keeps_own_path_witness :
  snd (get_diff_lines ascii_decimal default_max_str_digits quoting_git_world
         false accented_file (lit "master"))
  = Ok [].
Proof.
  apply (@get_diff_lines_keeps_own_path ascii_decimal
           default_max_str_digits quoting_git_world false accented_file
           (lit "master") 0%Z quoted_diff quoted_diff_preamble
           (lit "+++ " ++ quoted_path) (lit "@@ -0,0 +1 @@") 1%Z
           [lit "+teh cat"]).
  - reflexivity.
  - vm_compute; reflexivity.
  - repeat constructor.
  - reflexivity.
  - discriminate.
  - reflexivity.
  - vm_compute; reflexivity.
  - repeat constructor.
Defined.

Lemma dictionary_words_are_never_reported_witness :
  ~ In (lit "teh") (split (args_dictionary
                             (args_allowing (lit "cat dog") (lit "teh cat")))).
Proof.
  apply (@dictionary_words_are_never_reported ascii_alpha ascii_decimal
           default_max_str_digits no_names git_world
           (args_allowing (lit "cat dog") (lit "teh cat"))
           1%Z (lit "teh") (lit "teh cat")).
  vm_compute; left; reflexivity.
Defined.

Lemma checker_failure_aborts_the_run_witness :
  snd (run_main no_checker_world (args_with (Some (lit "teh cat")) None))
  = Raise OSError
  /\ exit_status
       (snd (run_main no_checker_world
               (args_with (Some (lit "teh cat")) None))) = 1%Z
  /\ ~ completes
         (snd (run_main no_checker_world
                 (args_with (Some (lit "teh cat")) None))).
Proof.
  apply (@checker_failure_aborts_the_run ascii_alpha ascii_decimal
           default_max_str_digits no_names no_checker_world
           (args_with (Some (lit "teh cat")) None) [lit "**/*.md"] []
           (lit "<stdin>") [(1%Z, lit "teh cat")] []).
  - reflexivity.
  - reflexivity.
  - vm_compute; reflexivity.
  - reflexivity.
Defined.

Lemma any_input_debug_value_switches_debugging_on_witness :
  main_debug debug_false_world (args_with (Some (lit "teh cat")) None)
  = true
  /\ hd_error
       (fst (run_main debug_false_world
               (args_with (Some (lit "teh cat")) None)))
     = Some (checker_trace (args_with (Some (lit "teh cat")) None)).
Proof.
  apply (@any_input_debug_value_switches_debugging_on ascii_alpha
           ascii_decimal default_max_str_digits no_names debug_false_world
           (args_with (Some (lit "teh cat")) None) (lit "false")
           (lit "teh cat") (lit "teh cat")).
  - reflexivity.
  - discriminate.
  - reflexivity.
  - discriminate.
  - reflexivity.
  - reflexivity.
  - vm_compute; discriminate.
  - vm_compute; discriminate.
Defined.
